(** * Synthwave84 theme tool: colour derivation and validation engine

    A shallow embedding of [scripts/theme.py] and the properties its
    specification states about it.

    Conventions of the embedding.
    - A Python [str] is a [string]; a character is a code point below 256.
    - A Python [int] is a [Z].
    - Python's [float] is an interface, [PyFloat], and the colour functions
      are written once over it.  It has two instances: [Binary64], the IEEE
      754 double precision numbers a Python interpreter computes with, and
      [Exact], the rationals, where the same operations do not round.
      Properties that hold for every colour are proved for [Exact] or for
      any instance; [Binary64] evaluates the functions at given colours.
      [x ** 2.4], which [luminance] takes from the C library, is a parameter
      [gamma] of the colour functions.
    - A raised exception is [None] in the [option] monad.
    - A value loaded from a JSON document is a [json]; a Python [dict] is an
      association list in insertion order. *)

From Stdlib Require Import ZArith QArith Qround Floats Lia Lqa List Bool.
From Stdlib Require Import Ascii String DecimalString.
Import ListNotations.

Local Open Scope string_scope.
Local Open Scope Z_scope.

(** ** The option monad, for code that can raise *)

Definition bind {A B : Type} (m : option A) (f : A -> option B) : option B :=
  match m with
  | Some a => f a
  | None => None
  end.

Notation "x <- m ;; k" := (bind m (fun x => k))
  (at level 61, m at next level, right associativity).
Notation "' pat <- m ;; k" := (bind m (fun x => match x with pat => k end))
  (at level 61, pat pattern, m at next level, right associativity).

Fixpoint mapM {A B : Type} (f : A -> option B) (l : list A) : option (list B) :=
  match l with
  | [] => Some []
  | x :: xs => y <- f x ;; ys <- mapM f xs ;; Some (y :: ys)
  end.

(** ** Python built-ins used by the source *)

Module Py.

(** [s.lstrip(c)] for a one-character argument. *)
Fixpoint lstrip (c : ascii) (s : string) : string :=
  match s with
  | String a s' => if Ascii.eqb a c then lstrip c s' else s
  | EmptyString => EmptyString
  end.

(** [s[i:j]] for [0 <= i <= j]; like Python, the slice is clipped. *)
Definition slice (i j : nat) (s : string) : string := substring i (j - i) s.

(** [s.startswith(p)]. *)
Definition startswith (p s : string) : bool := prefix p s.

(** [p in s] on strings. *)
Fixpoint contains (p s : string) : bool :=
  prefix p s ||
  match s with
  | EmptyString => false
  | String _ s' => contains p s'
  end.

(** White space as [int()] sees it: [str.isspace] below code point 256. *)
Definition is_space (a : ascii) : bool :=
  let n := nat_of_ascii a in
  ((9 <=? n) && (n <=? 13) || (28 <=? n) && (n <=? 32)
   || (n =? 133) || (n =? 160))%nat.

Definition hex_digit (a : ascii) : option Z :=
  let n := Z.of_nat (nat_of_ascii a) in
  if (48 <=? n) && (n <=? 57) then Some (n - 48)
  else if (97 <=? n) && (n <=? 102) then Some (n - 87)
  else if (65 <=? n) && (n <=? 70) then Some (n - 55)
  else None.

Definition is_hex_digit (a : ascii) : bool :=
  match hex_digit a with Some _ => true | None => false end.

Definition is_lower_hex_digit (a : ascii) : bool :=
  let n := Z.of_nat (nat_of_ascii a) in
  (48 <=? n) && (n <=? 57) || (97 <=? n) && (n <=? 102).

Fixpoint lstrip_space (s : string) : string :=
  match s with
  | String a s' => if is_space a then lstrip_space s' else s
  | EmptyString => EmptyString
  end.

(** The digits of an integer literal in base 16: hexadecimal digits, with
    single underscores between them.  [underscore_ok] says whether an
    underscore may come next, [seen] whether the last character was a digit. *)
Fixpoint digits16 (acc : Z) (underscore_ok seen : bool) (s : string) : option Z :=
  match s with
  | EmptyString => if seen then Some acc else None
  | String a s' =>
      if Ascii.eqb a "_" then
        if underscore_ok then digits16 acc false false s' else None
      else if is_space a then
        (* trailing white space: nothing but white space may follow *)
        if seen then
          match lstrip_space s' with
          | EmptyString => Some acc
          | _ => None
          end
        else None
      else
        match hex_digit a with
        | Some d => digits16 (16 * acc + d) true true s'
        | None => None
        end
  end.

(** [int(s, 16)]: optional white space, an optional sign, an optional [0x]
    prefix, then the digits. *)
Definition int16 (s : string) : option Z :=
  let s := lstrip_space s in
  let '(neg, s) :=
    match s with
    | String "-" s' => (true, s')
    | String "+" s' => (false, s')
    | _ => (false, s)
    end in
  let '(after_prefix, s) :=
    match s with
    | String "0" (String "x" s') => (true, s')
    | String "0" (String "X" s') => (true, s')
    | _ => (false, s)
    end in
  n <- digits16 0 after_prefix false s ;;
  Some (if neg then - n else n).

Definition hex_char (d : Z) : ascii :=
  ascii_of_nat (Z.to_nat (if d <? 10 then 48 + d else 87 + d)).

(** [format(n, "x")] for [0 <= n]; [fuel] bounds the number of digits. *)
Fixpoint hex_of_nonneg (fuel : nat) (n : Z) (acc : string) : string :=
  match fuel with
  | O => acc
  | S fuel' =>
      let acc' := String (hex_char (n mod 16)) acc in
      if n <? 16 then acc' else hex_of_nonneg fuel' (n / 16) acc'
  end.

Definition format_x (n : Z) : string :=
  hex_of_nonneg (S (Z.to_nat (Z.log2 n))) n "".

(** [f"{n:02x}"]: lower-case hexadecimal, zero-padded to a width of two that
    counts the sign. *)
Definition format_02x (n : Z) : string :=
  if n <? 0 then "-" ++ format_x (- n)
  else
    let d := format_x n in
    if (String.length d <? 2)%nat then "0" ++ d else d.

(** [str(n)] for an integer. *)
Definition str_int (n : Z) : string := NilZero.string_of_int (Z.to_int n).

Definition str_nat (n : nat) : string := str_int (Z.of_nat n).

End Py.

(** ** Colour utilities: the integer part *)

Definition rgb : Type := (Z * Z * Z)%type.

Definition hex_to_rgb (hex_color : string) : option rgb :=
  let h := Py.slice 0 6 (Py.lstrip "#" hex_color) in
  r <- Py.int16 (Py.slice 0 2 h) ;;
  g <- Py.int16 (Py.slice 2 4 h) ;;
  b <- Py.int16 (Py.slice 4 6 h) ;;
  Some (r, g, b).

Definition rgb_to_hex (c : rgb) : string :=
  let '(r, g, b) := c in
  "#" ++ Py.format_02x r ++ Py.format_02x g ++ Py.format_02x b.

(** ** Python dictionaries with string keys, in insertion order *)

Module Dict.

Section Ops.

Context {A : Type}.

Definition t : Type := list (string * A).

(** [d[k]], or [d.get(k)]: [None] when the key is absent. *)
Fixpoint get (k : string) (d : t) : option A :=
  match d with
  | [] => None
  | (k', v) :: d' => if String.eqb k' k then Some v else get k d'
  end.

(** [d[k] = v]: a key that is present keeps its place. *)
Fixpoint set (k : string) (v : A) (d : t) : t :=
  match d with
  | [] => [(k, v)]
  | (k', v') :: d' =>
      if String.eqb k' k then (k', v) :: d' else (k', v') :: set k v d'
  end.

(** [{**d, **items}] *)
Definition update (d : t) (items : list (string * A)) : t :=
  fold_left (fun acc kv => set (fst kv) (snd kv) acc) items d.

(** A dictionary display or comprehension, its items in evaluation order. *)
Definition of_items (items : list (string * A)) : t := update [] items.

Definition keys (d : t) : list string := map fst d.

End Ops.

Arguments t : clear implicits.

End Dict.

(** ** Python's float arithmetic *)

Class PyFloat (F : Type) : Type := {
  (** [float(n)] *)
  float_of_int : Z -> F;
  fadd : F -> F -> F;
  fsub : F -> F -> F;
  fmul : F -> F -> F;
  (** [x / y] where [y] is not zero *)
  fquot : F -> F -> F;
  fltb : F -> F -> bool;
  fleb : F -> F -> bool;
  feqb : F -> F -> bool;
  (** [t % 1]: the result has the sign of the divisor *)
  fmod1 : F -> F;
  (** [int(x)]: truncation towards zero; raises on nan and the infinities *)
  fint : F -> option Z
}.

Declare Scope pyfloat_scope.
Delimit Scope pyfloat_scope with pf.
Infix "+" := fadd : pyfloat_scope.
Infix "-" := fsub : pyfloat_scope.
Infix "*" := fmul : pyfloat_scope.
Infix "<?" := fltb : pyfloat_scope.
Infix "<=?" := fleb : pyfloat_scope.
Infix "=?" := feqb : pyfloat_scope.

Section Arithmetic.

Context {F : Type} `{PyFloat F}.
Local Open Scope pyfloat_scope.

(** The integer [n] used as a float. *)
Definition fl (n : Z) : F := float_of_int n.

(** A decimal literal [n / d], such as [12.92] for [dec 1292 100]: the
    nearest float, which the correctly rounded quotient of two small integers
    is. *)
Definition dec (n d : Z) : F := fquot (fl n) (fl d).

(** [x / y], which raises [ZeroDivisionError] when [y] is zero. *)
Definition fdiv (x y : F) : option F :=
  if y =? fl 0 then None else Some (fquot x y).

(** [max(a, b)] and [min(a, b)]: the first argument wins a tie. *)
Definition fmax (a b : F) : F := if a <? b then b else a.
Definition fmin (a b : F) : F := if b <? a then b else a.
Definition fmax3 (a b c : F) : F := fmax (fmax a b) c.
Definition fmin3 (a b c : F) : F := fmin (fmin a b) c.

(** [max(0, min(100, l))] *)
Definition clamp (l : F) : F := fmax (fl 0) (fmin (fl 100) l).

End Arithmetic.

(** *** The exact instance *)

Definition Qtrunc (x : Q) : Z := if Qle_bool 0 x then Qfloor x else Qceiling x.

#[export] Instance Exact : PyFloat Q := {|
  float_of_int := inject_Z;
  fadd := Qplus;
  fsub := Qminus;
  fmul := Qmult;
  fquot := Qdiv;
  fltb := fun x y => negb (Qle_bool y x);
  fleb := Qle_bool;
  feqb := Qeq_bool;
  fmod1 := fun t => (t - inject_Z (Qfloor t))%Q;
  fint := fun x => Some (Qtrunc x)
|}.

(** *** The binary64 instance *)

Module B64.

Local Open Scope float_scope.

(** [float(n)], rounded to nearest even. *)
Definition of_int (n : Z) : float := SF2Prim (binary_normalize prec emax n 0 false).

Definition int (x : float) : option Z :=
  match Prim2SF x with
  | S754_zero _ => Some 0%Z
  | S754_finite s m e =>
      let v := if (0 <=? e)%Z then (Zpos m * 2 ^ e)%Z
               else (Zpos m / 2 ^ (- e))%Z in
      Some (if s then (- v)%Z else v)
  | S754_infinity _ | S754_nan => None
  end.

(** [x % 1.0] as the interpreter computes it: the C library's
    [fmod(x, 1.0)], which is exact, moved into the range of the divisor. *)
Definition mod1 (x : float) : float :=
  match int x with
  | None => nan
  | Some n =>
      let m := x - of_int n in
      if m =? 0 then 0 else if m <? 0 then m + 1 else m
  end.

Fixpoint root5 (n : nat) (a y : float) : float :=
  match n with
  | O => y
  | S n' => root5 n' a ((4 * y + a / (y * y * y * y)) / 5)
  end.

(** A stand-in for the C library's [pow(x, 2.4)] at [0 < x <= 1], computed as
    [x^2 * (x^2)^(1/5)] with Newton's iteration for the fifth root.  It agrees
    with the library function up to the last digits. *)
Definition pow24 (x : float) : float :=
  let a := x * x in a * root5 60 a 1.

End B64.

#[export] Instance Binary64 : PyFloat float := {|
  float_of_int := B64.of_int;
  fadd := PrimFloat.add;
  fsub := PrimFloat.sub;
  fmul := PrimFloat.mul;
  fquot := PrimFloat.div;
  fltb := PrimFloat.ltb;
  fleb := PrimFloat.leb;
  feqb := PrimFloat.eqb;
  fmod1 := B64.mod1;
  fint := B64.int
|}.

(** ** Colour utilities: the arithmetic part *)

Section Colour.

Context {F : Type} `{PyFloat F}.
Local Open Scope pyfloat_scope.

(** [gamma x] stands for [x ** 2.4]. *)
Variable gamma : F -> F.

Definition hsl : Type := (F * F * F)%type.

Definition hex_to_hsl (hex_color : string) : option hsl :=
  '(r, g, b) <- hex_to_rgb hex_color ;;
  let r := fquot (fl r) (fl 255) in
  let g := fquot (fl g) (fl 255) in
  let b := fquot (fl b) (fl 255) in
  let mx := fmax3 r g b in
  let mn := fmin3 r g b in
  let l := fquot (mx + mn) (fl 2) in
  '(h, s) <-
    (if mx =? mn then Some (fl 0, fl 0)
     else
       let d := mx - mn in
       s <- (if dec 5 10 <? l then fdiv d (fl 2 - mx - mn)
             else fdiv d (mx + mn)) ;;
       h <- (if mx =? r then
               x <- fdiv (g - b) d ;;
               Some (x + (if g <? b then fl 6 else fl 0))
             else if mx =? g then
               x <- fdiv (b - r) d ;; Some (x + fl 2)
             else
               x <- fdiv (r - g) d ;; Some (x + fl 4)) ;;
       Some (fquot h (fl 6), s)) ;;
  Some (h * fl 360, s * fl 100, l * fl 100).

Definition hue2rgb (p q t : F) : F :=
  let t := fmod1 t in
  if t <? dec 1 6 then p + (q - p) * fl 6 * t
  else if t <? dec 1 2 then q
  else if t <? dec 2 3 then p + (q - p) * (dec 2 3 - t) * fl 6
  else p.

(** The three channels in the unit interval, before they are scaled to
    bytes. *)
Definition hsl_channels (h s l : F) : F * F * F :=
  let h := fquot h (fl 360) in
  let s := fquot s (fl 100) in
  let l := fquot l (fl 100) in
  if s =? fl 0 then (l, l, l)
  else
    let q := if l <? dec 5 10 then l * (fl 1 + s) else l + s - l * s in
    let p := fl 2 * l - q in
    (hue2rgb p q (h + dec 1 3), hue2rgb p q h, hue2rgb p q (h - dec 1 3)).

Definition hsl_to_hex (h s l : F) : option string :=
  let '(r, g, b) := hsl_channels h s l in
  r <- fint (r * fl 255) ;;
  g <- fint (g * fl 255) ;;
  b <- fint (b * fl 255) ;;
  Some (rgb_to_hex (r, g, b)).

Definition channel (c : F) : F :=
  if c <=? dec 3928 100000 then fquot c (dec 1292 100)
  else gamma (fquot (c + dec 55 1000) (dec 1055 1000)).

Definition luminance (c : rgb) : F :=
  let '(r, g, b) := c in
  let r := channel (fquot (fl r) (fl 255)) in
  let g := channel (fquot (fl g) (fl 255)) in
  let b := channel (fquot (fl b) (fl 255)) in
  dec 2126 10000 * r + dec 7152 10000 * g + dec 722 10000 * b.

Definition contrast_ratio (c1 c2 : string) : option F :=
  rgb1 <- hex_to_rgb c1 ;;
  rgb2 <- hex_to_rgb c2 ;;
  let l1 := luminance rgb1 in
  let l2 := luminance rgb2 in
  fdiv (fmax l1 l2 + dec 5 100) (fmin l1 l2 + dec 5 100).

(** Adjust lightness by delta (-100 to +100). *)
Definition adjust_lightness (hex_color : string) (delta : F) : option string :=
  '(h, s, l) <- hex_to_hsl hex_color ;;
  hsl_to_hex h s (clamp (l + delta)).

(** [n] rounds of the loop [for _ in range(100)] of [ensure_contrast], from
    lightness [l]: the colour returned from inside the loop or after it. *)
Fixpoint ensure_contrast_loop (h s : F) (bg : string) (min_ratio step : F)
    (n : nat) (l : F) : option string :=
  match n with
  | O => hsl_to_hex h s l
  | S n' =>
      let l := clamp (l + step) in
      candidate <- hsl_to_hex h s l ;;
      c <- contrast_ratio candidate bg ;;
      if min_ratio <=? c then Some candidate
      else ensure_contrast_loop h s bg min_ratio step n' l
  end.

(** Lighten if asked to, or on 'auto' if the background is dark. *)
Definition go_lighter (direction : string) (bg_lum : F) : bool :=
  String.eqb direction "lighter"
  || (String.eqb direction "auto" && (bg_lum <? dec 5 10)).

(** Adjust foreground color to meet minimum contrast ratio against
    background.  [direction] is 'lighter', 'darker' or 'auto'. *)
Definition ensure_contrast (fg bg : string) (min_ratio : F) (direction : string)
    : option string :=
  c <- contrast_ratio fg bg ;;
  if min_ratio <=? c then Some fg
  else
    '(h, s, l) <- hex_to_hsl fg ;;
    bg_rgb <- hex_to_rgb bg ;;
    let bg_lum := luminance bg_rgb in
    let step := if go_lighter direction bg_lum then fl 1 else fl (-1) in
    ensure_contrast_loop h s bg min_ratio step 100 l.

(** Variant adjustment parameters: [lightness_delta] and [target_contrast],
    either of which an entry of the table may leave out. *)
Definition adjustment : Type := (option F * option F)%type.

Definition VARIANT_ADJUSTMENTS : list (string * adjustment) :=
  [ ("soft", (Some (fl 6), Some (dec 45 10)));
    ("high_contrast", (Some (fl (-8)), Some (fl 7))) ].

(** The body of [derive_variant_color], over any adjustment table. *)
Definition derive_variant_color_in (adjustments : list (string * adjustment))
    (base_color bg_color variant : string) : option string :=
  if String.eqb variant "classic" then Some base_color
  else
    let adj := match Dict.get variant adjustments with
               | Some a => a
               | None => (None, None)
               end in
    let delta := match fst adj with Some d => d | None => fl 0 end in
    let target := match snd adj with Some t => t | None => dec 45 10 end in
    adjusted <- adjust_lightness base_color delta ;;
    ensure_contrast adjusted bg_color target "auto".

(** Derive a variant color from base, ensuring WCAG contrast. *)
Definition derive_variant_color : string -> string -> string -> option string :=
  derive_variant_color_in VARIANT_ADJUSTMENTS.

End Colour.

(** ** JSON documents *)

#[warnings="-register-all"]
Inductive json : Type :=
| JNull
| JBool (b : bool)
| JInt (n : Z)
| JFloat (x : float)
| JStr (s : string)
| JList (l : list json)
| JDict (d : list (string * json)).

Definition dict : Type := Dict.t json.

Module Json.

(** [obj[k]] for a string [k]: only a dictionary can be subscripted so. *)
Definition subscript (obj : json) (k : string) : option json :=
  match obj with
  | JDict d => Dict.get k d
  | _ => None
  end.

(** [obj.get(k, default)] *)
Definition get_or (obj : json) (k : string) (default : json) : option json :=
  match obj with
  | JDict d => Some (match Dict.get k d with Some v => v | None => default end)
  | _ => None
  end.

(** [obj.items()] *)
Definition items (obj : json) : option dict :=
  match obj with
  | JDict d => Some d
  | _ => None
  end.

Fixpoint chars (s : string) : list json :=
  match s with
  | EmptyString => []
  | String c s' => JStr (String c "") :: chars s'
  end.

(** [for x in obj]: the elements of a list, the keys of a dictionary, the
    characters of a string. *)
Definition iter (obj : json) : option (list json) :=
  match obj with
  | JList l => Some l
  | JDict d => Some (map JStr (Dict.keys d))
  | JStr s => Some (chars s)
  | _ => None
  end.

(** [len(obj)] *)
Definition len (obj : json) : option nat :=
  match obj with
  | JList l => Some (List.length l)
  | JDict d => Some (List.length d)
  | JStr s => Some (String.length s)
  | _ => None
  end.

Definition as_str (v : json) : option string :=
  match v with
  | JStr s => Some s
  | _ => None
  end.

End Json.

(** ** The result type *)

Record Result : Type := { ok : bool; message : string }.

Definition success (msg : string) : Result := {| ok := true; message := "OK: " ++ msg |}.
Definition failure (msg : string) : Result := {| ok := false; message := "FAIL: " ++ msg |}.

(** [xs or [y]] *)
Definition or_else {A : Type} (xs : list A) (y : A) : list A :=
  match xs with
  | [] => [y]
  | _ => xs
  end.

Definition VARIANT_KEYS : list string := ["classic"; "soft"; "high_contrast"].

(** ** Template resolution *)

(** The longest run of characters other than a closing brace at the head of
    [s], and what follows it: the greedy [[^}]+]. *)
Fixpoint key_run (s : string) : string * string :=
  match s with
  | EmptyString => ("", "")
  | String c s' =>
      if Ascii.eqb c "}" then ("", s)
      else let '(k, rest) := key_run s' in (String c k, rest)
  end.

(** The pattern [\{\{([^}]+)\}\}] matched at the head of [s]: group 1 and
    the text after the match.  A shorter key cannot help, since the character
    after it would not be a closing brace. *)
Definition match_marker (s : string) : option (string * string) :=
  match s with
  | String "{" (String "{" s1) =>
      match key_run s1 with
      | (String c k, String "}" (String "}" rest)) => Some (String c k, rest)
      | _ => None
      end
  | _ => None
  end.

(** [colors.get(m.group(1), m.group(0))], which [re.sub] accepts only when it
    is a string. *)
Definition replacer (colors : dict) (key : string) : option string :=
  match Dict.get key colors with
  | Some v => Json.as_str v
  | None => Some ("{{" ++ key ++ "}}")
  end.

(** [re.sub] from left to right: after a match the scan resumes behind it, so
    the next [skip] characters belong to a match already replaced. *)
Fixpoint sub_markers (colors : dict) (skip : nat) (s : string) : option string :=
  match s with
  | EmptyString => Some ""
  | String c s' =>
      match skip with
      | S k => sub_markers colors k s'
      | O =>
          match match_marker s with
          | Some (key, _) =>
              r <- replacer colors key ;;
              rest <- sub_markers colors (String.length key + 3) s' ;;
              Some (r ++ rest)
          | None =>
              rest <- sub_markers colors 0 s' ;;
              Some (String c rest)
          end
      end
  end.

Definition resolve_template (template : string) (colors : dict) : option string :=
  sub_markers colors 0 template.

Fixpoint resolve_value (value : json) (colors : dict) : option json :=
  match value with
  | JStr s =>
      if Py.contains "{{" s then r <- resolve_template s colors ;; Some (JStr r)
      else Some value
  | JDict d =>
      d' <- (fix go (d : list (string * json)) : option (list (string * json)) :=
               match d with
               | [] => Some []
               | (k, v) :: rest =>
                   v' <- resolve_value v colors ;;
                   rest' <- go rest ;;
                   Some ((k, v') :: rest')
               end) d ;;
      Some (JDict (Dict.of_items d'))
  | JList l =>
      l' <- (fix go (l : list json) : option (list json) :=
               match l with
               | [] => Some []
               | v :: rest =>
                   v' <- resolve_value v colors ;;
                   rest' <- go rest ;;
                   Some (v' :: rest')
               end) l ;;
      Some (JList l')
  | _ => Some value
  end.

(** ** Generation and validation *)

(** Text-book insertion sort by code points, for [sorted] on strings. *)
Fixpoint insert_sorted (x : string) (l : list string) : list string :=
  match l with
  | [] => [x]
  | y :: l' => if String.leb x y then x :: l else y :: insert_sorted x l'
  end.

Definition sorted (l : list string) : list string :=
  fold_right insert_sorted [] l.

(** [a | b] on sets of strings, each element once. *)
Definition set_union (a b : list string) : list string :=
  nodup string_dec (a ++ b).

(** [a - b] on sets of strings. *)
Definition set_diff (a b : list string) : list string :=
  filter (fun k => negb (existsb (String.eqb k) b)) a.

Section Theme.

(** [str(v)] for a float, a list or a dictionary. *)
Variable repr : json -> string.

(** [str(s)] for a set of strings, whose order is the interpreter's. *)
Variable set_repr : list string -> string.

(** [f"{v}"] *)
Definition format (v : json) : string :=
  match v with
  | JStr s => s
  | JNull => "None"
  | JBool true => "True"
  | JBool false => "False"
  | JInt n => Py.str_int n
  | _ => repr v
  end.

(** [{f"{prefix}{k}": v for k, v in obj.items() if not k.startswith("$")}];
    [keep_meta] drops the condition. *)
Definition prefixed (keep_meta : bool) (prefix : string) (obj : json) : option dict :=
  d <- Json.items obj ;;
  Some (Dict.of_items
          (map (fun kv => (prefix ++ fst kv, snd kv))
             (filter (fun kv => keep_meta || negb (Py.startswith "$" (fst kv))) d))).

Definition get_variant_colors (palette : json) (variant : string) : option dict :=
  base_ <- Json.subscript palette "base" ;;
  background <- (v <- Json.subscript base_ "background" ;; prefixed true "background." v) ;;
  foreground <- (v <- Json.subscript base_ "foreground" ;; prefixed true "foreground." v) ;;
  border <- (v <- Json.subscript base_ "border" ;; prefixed true "border." v) ;;
  syntax <- (v <- Json.subscript palette "syntax" ;; prefixed false "syntax." v) ;;
  terminal <- (v <- Json.subscript palette "terminal" ;; prefixed true "terminal." v) ;;
  let base :=
    Dict.update (Dict.update (Dict.update (Dict.update (Dict.update [] background)
      foreground) border) syntax) terminal in
  if negb (String.eqb variant "classic") then
    variants <- Json.get_or palette "variants" (JDict []) ;;
    overrides <- Json.get_or variants variant (JDict []) ;;
    extra <- prefixed false "" overrides ;;
    Some (Dict.update base extra)
  else Some base.

Definition generate_players (palette : json) : option (list json) :=
  players <- Json.subscript palette "players" ;;
  cs <- Json.iter players ;;
  Some (map (fun c => JDict (Dict.of_items
                [("cursor", c); ("background", c);
                 ("selection", JStr (format c ++ "40"))])) cs).

(** [{token: key for key, tokens in groups.items()
      if not key.startswith("$") for token in tokens}], for string tokens. *)
Fixpoint token_table (groups : dict) : option (list (string * string)) :=
  match groups with
  | [] => Some []
  | (key, tokens) :: rest =>
      if Py.startswith "$" key then token_table rest
      else
        ts <- Json.iter tokens ;;
        ts <- mapM Json.as_str ts ;;
        more <- token_table rest ;;
        Some (map (fun t => (t, key)) ts ++ more)%list
  end.

Definition json_of_option (v : option json) : json :=
  match v with Some v => v | None => JNull end.

Definition str_or_none (v : option string) : json :=
  match v with Some s => JStr s | None => JNull end.

(** [for key, template in special_map.items()] with its assignments to
    [syntax]. *)
Fixpoint assign_special (colors : dict) (special : dict) (syntax : dict) : option dict :=
  match special with
  | [] => Some syntax
  | (key, template) :: rest =>
      if Py.startswith "$" key then assign_special colors rest syntax
      else
        t <- Json.as_str template ;;
        c <- resolve_template t colors ;;
        assign_special colors rest
          (Dict.set key (JDict (Dict.of_items [("color", JStr c)])) syntax)
  end.

Definition generate_syntax (base : json) (colors : dict) : option dict :=
  color_map <- (v <- Json.subscript base "syntax_colors" ;; Json.items v) ;;
  style_map <- (v <- Json.subscript base "syntax_styles" ;; Json.items v) ;;
  special_map <- (v <- Json.get_or base "syntax_special" (JDict []) ;; Json.items v) ;;
  token_colors <- token_table color_map ;;
  token_styles <- token_table style_map ;;
  let token_colors := Dict.of_items token_colors in
  let token_styles := Dict.of_items token_styles in
  let get_color t :=
    match Dict.get t token_colors with
    | Some "foreground" => json_of_option (Dict.get "foreground.primary" colors)
    | Some key => json_of_option (Dict.get ("syntax." ++ key) colors)
    | None => json_of_option (Dict.get "syntax.type" colors)
    end in
  let entry token :=
    (token,
     JDict (Dict.of_items
       [("color", get_color token);
        ("font_style", str_or_none (Dict.get token token_styles));
        ("font_weight",
         match Dict.get token token_styles with
         | Some "bold" => JInt 700
         | _ => JNull
         end)])) in
  let syntax :=
    Dict.of_items
      (map entry (sorted (set_union (Dict.keys token_colors) (Dict.keys token_styles)))) in
  assign_special colors special_map syntax.

Definition generate_variant (base palette : json) (variant_key : string) : option json :=
  colors <- get_variant_colors palette variant_key ;;
  config <- (v <- Json.subscript base "variants" ;; Json.subscript v variant_key) ;;
  ui <- (v <- Json.subscript base "ui" ;; resolve_value v colors) ;;
  terminal <-
    (v <- Json.subscript base "terminal" ;;
     d <- Json.items v ;;
     d' <- mapM (fun kv => v' <- resolve_value (snd kv) colors ;;
                           Some ("terminal." ++ fst kv, v')) d ;;
     Some (Dict.of_items d')) ;;
  syntax <- generate_syntax base colors ;;
  background_deep <- Dict.get "background.deep" colors ;;
  foreground_primary <- Dict.get "foreground.primary" colors ;;
  syntax_type <- Dict.get "syntax.type" colors ;;
  border_default <- Dict.get "border.default" colors ;;
  border_focused <- Dict.get "border.focused" colors ;;
  background_surface <- Dict.get "background.surface" colors ;;
  background_elevated <- Dict.get "background.elevated" colors ;;
  background_active <- Dict.get "background.active" colors ;;
  line_number_alpha <- Json.subscript config "line_number_alpha" ;;
  ui <- Json.items ui ;;
  players <- generate_players palette ;;
  let style :=
    Dict.of_items
      ([ ("background", background_deep);
         ("foreground", foreground_primary);
         ("accent", syntax_type);
         ("border", border_default);
         ("border.focused", border_focused);
         ("elevated_surface.background", background_surface);
         ("surface.background", background_surface);
         ("element.background", background_surface);
         ("element.hover", background_elevated);
         ("element.active", background_active);
         ("element.selected", background_active);
         ("text", foreground_primary);
         ("editor.background", background_surface);
         ("editor.active_line.background", background_elevated);
         ("editor.line_number",
          JStr (format foreground_primary ++ format line_number_alpha)) ]
       ++ ui
       ++ terminal
       ++ [ ("players", JList players);
            ("syntax", JDict syntax) ])%list in
  name <- Json.subscript config "name" ;;
  Some (JDict (Dict.of_items
          [("name", name); ("appearance", JStr "dark"); ("style", JDict style)])).

Definition generate_theme (base palette : json) : option json :=
  schema <- Json.subscript base "$schema" ;;
  name <- Json.subscript base "name" ;;
  author <- Json.subscript base "author" ;;
  themes <- mapM (generate_variant base palette) VARIANT_KEYS ;;
  Some (JDict (Dict.of_items
          [("$schema", schema); ("name", name); ("author", author);
           ("themes", JList themes)])).

(** *** Validation *)

Fixpoint find_colors (obj : json) (path : string) : list (string * string) :=
  match obj with
  | JDict d =>
      (fix go (d : list (string * json)) : list (string * string) :=
         match d with
         | [] => []
         | (k, v) :: rest => (find_colors v (path ++ "." ++ k) ++ go rest)%list
         end) d
  | JStr s => if Py.startswith "#" s then [(path, s)] else []
  | _ => []
  end.

(** [n] hexadecimal digits at the head of [s], and what follows them. *)
Fixpoint hex_run (n : nat) (s : string) : option string :=
  match n with
  | O => Some s
  | S n' =>
      match s with
      | String c s' => if Py.is_hex_digit c then hex_run n' s' else None
      | EmptyString => None
      end
  end.

(** [$]: the end of the string, or the newline that ends it. *)
Definition at_end (s : string) : bool :=
  match s with
  | EmptyString => true
  | String c EmptyString => Ascii.eqb c "010"
  | _ => false
  end.

(** [re.compile(r"^#[0-9a-fA-F]{6}([0-9a-fA-F]{2})?$").match(c)] *)
Definition color_pattern (c : string) : bool :=
  match c with
  | String "#" s =>
      match hex_run 6 s with
      | Some rest =>
          match hex_run 2 rest with
          | Some rest' => at_end rest' || at_end rest
          | None => at_end rest
          end
      | None => false
      end
  | _ => false
  end.

Definition validate_colors (data : json) : list Result :=
  let invalid := filter (fun pc => negb (color_pattern (snd pc))) (find_colors data "") in
  or_else
    (map (fun pc => failure (fst pc ++ ": invalid '" ++ snd pc ++ "'")) (firstn 10 invalid))
    (success "All colors valid hex format").

Definition validate_players (data : json) : option (list Result) :=
  themes <- Json.get_or data "themes" (JList []) ;;
  themes <- Json.iter themes ;;
  mapM (fun t =>
          style <- Json.subscript t "style" ;;
          p <- Json.get_or style "players" (JList []) ;;
          n <- Json.len p ;;
          name <- Json.subscript t "name" ;;
          Some (if (8 <=? n)%nat
                then success (format name ++ " has " ++ Py.str_nat n ++ " player colors")
                else failure (format name ++ ": only " ++ Py.str_nat n ++ " players")))
       themes.

(** [set(t["style"].keys())] *)
Definition style_keys (t : json) : option (list string) :=
  style <- Json.subscript t "style" ;;
  d <- Json.items style ;;
  Some (nodup string_dec (Dict.keys d)).

Definition validate_consistency (data : json) : option (list Result) :=
  themes <- Json.get_or data "themes" (JList []) ;;
  n <- Json.len themes ;;
  if (n <? 2)%nat then Some [success "Single theme"]
  else
    match themes with
    | JList (first :: rest) =>
        base_keys <- style_keys first ;;
        errors <-
          mapM (fun t =>
                  keys <- style_keys t ;;
                  missing <-
                    (match set_diff base_keys keys with
                     | [] => Some []
                     | m => name <- Json.subscript t "name" ;;
                            Some [format name ++ ": missing " ++ set_repr m]
                     end) ;;
                  extra <-
                    (match set_diff keys base_keys with
                     | [] => Some []
                     | e => name <- Json.subscript t "name" ;;
                            Some [format name ++ ": extra " ++ set_repr e]
                     end) ;;
                  Some (missing ++ extra)%list)
               rest ;;
        Some (or_else (map failure (List.concat errors))
                (success ("All " ++ Py.str_nat n ++ " variants consistent")))
    | _ => None
    end.

End Theme.

(** ** The other checks and the commands *)

(** [k in obj] for a string [k]: a key of a dictionary, an element of a list,
    a substring of a string. *)
Definition py_in (k : string) (obj : json) : option bool :=
  match obj with
  | JDict d => Some (match Dict.get k d with Some _ => true | None => false end)
  | JList l =>
      Some (existsb (fun v => match v with
                              | JStr s => String.eqb s k
                              | _ => false
                              end) l)
  | JStr s => Some (Py.contains k s)
  | _ => None
  end.

(** [bool(v)], the truth value [if v] tests. *)
Definition py_bool (v : json) : bool :=
  match v with
  | JNull => false
  | JBool b => b
  | JInt n => negb (n =? 0)
  | JFloat x => negb (PrimFloat.eqb x 0%float)
  | JStr s => negb (String.eqb s "")
  | JList l => match l with [] => false | _ => true end
  | JDict d => match d with [] => false | _ => true end
  end.

(** [enumerate(l)] *)
Definition enumerate {A : Type} (l : list A) : list (nat * A) :=
  combine (seq 0 (List.length l)) l.

(** [[msg(k) for k in required if k not in obj]] *)
Definition missing_keys (msg : string -> string) (required : list string)
    (obj : json) : option (list string) :=
  found <- mapM (fun k => b <- py_in k obj ;;
                          Some (if b then [] else [msg k])) required ;;
  Some (List.concat found).

Definition validate_structure (data : json) : option (list Result) :=
  let required_root := ["$schema"; "themes"] in
  let required_theme := ["name"; "appearance"; "style"] in
  root <- missing_keys (fun k => "Missing " ++ k) required_root data ;;
  themes <- Json.get_or data "themes" (JList []) ;;
  themes <- Json.iter themes ;;
  per_theme <-
    mapM (fun it =>
            missing_keys (fun k => "Theme " ++ Py.str_nat (fst it) ++ ": missing " ++ k)
              required_theme (snd it))
         (enumerate themes) ;;
  Some (or_else (map failure (root ++ List.concat per_theme)%list)
          (success "Valid structure")).

Section ContrastCheck.

Context {F : Type} `{PyFloat F}.

Variable gamma : F -> F.

(** [str(v)] for a float, a list or a dictionary. *)
Variable repr : json -> string.

(** [f"{ratio:.1f}"] *)
Variable format_1f : F -> string.

(** One entry of [validate_contrast]: the ratio of [bg] and [color] against
    the threshold, when both are there. *)
Definition contrast_result (t bg color : json) (what : string)
    (threshold : F) (shown : string) : option (list Result) :=
  if py_bool bg && py_bool color then
    b <- Json.as_str bg ;;
    c <- Json.as_str color ;;
    ratio <- contrast_ratio gamma b c ;;
    name <- Json.subscript t "name" ;;
    Some [ if fleb threshold ratio
           then success (format repr name ++ " " ++ what ++ " contrast "
                         ++ format_1f ratio ++ ":1")
           else failure (format repr name ++ ": " ++ what ++ " contrast "
                         ++ format_1f ratio ++ ":1 < " ++ shown ++ ":1") ]
  else Some [].

Definition validate_contrast (data : json) : option (list Result) :=
  themes <- Json.get_or data "themes" (JList []) ;;
  themes <- Json.iter themes ;;
  results <-
    mapM (fun t =>
            style <- Json.subscript t "style" ;;
            bg <- (d <- Json.get_or style "background" JNull ;;
                   Json.get_or style "editor.background" d) ;;
            fg <- (d <- Json.get_or style "foreground" JNull ;;
                   Json.get_or style "editor.foreground" d) ;;
            syntax <- Json.get_or style "syntax" (JDict []) ;;
            comment <- Json.get_or syntax "comment" (JDict []) ;;
            comment_color <-
              (match comment with
               | JDict _ => Json.get_or comment "color" JNull
               | _ => Some JNull
               end) ;;
            text <- contrast_result t bg fg "text" (dec 45 10) "4.5" ;;
            comments <- contrast_result t bg comment_color "comment" (fl 3) "3.0" ;;
            Some (text ++ comments)%list)
         themes ;;
  Some (List.concat results).

End ContrastCheck.

(** The position at which two strings first differ, if one is not a prefix
    of the other: the loop over [zip(current_str, generated_str)]. *)
Fixpoint first_difference (i : nat) (current generated : string) : option nat :=
  match current, generated with
  | String c current', String g generated' =>
      if Ascii.eqb c g then first_difference (S i) current' generated'
      else Some i
  | _, _ => None
  end.

(** [cmd_check] from the two serialised themes on: the lines it prints after
    its heading and the status it returns. *)
Definition cmd_check_compare (current_str generated_str : string)
    : list string * Z :=
  if String.eqb current_str generated_str then (["OK: Theme matches source"], 0)
  else
    match first_difference 0 current_str generated_str with
    | Some i =>
        ([ "FAIL: Differs at position " ++ Py.str_nat i;
           "  Run 'make generate' to regenerate" ], 1)
    | None => (["FAIL: Length mismatch"], 1)
    end.

(** The core tokens of [cmd_coverage]. *)
Definition CORE_TOKENS : list string :=
  [ "attribute"; "boolean"; "comment"; "comment.doc"; "constant"; "constructor";
    "embedded"; "emphasis"; "emphasis.strong"; "enum"; "function"; "hint";
    "keyword"; "label"; "link_text"; "link_uri"; "number"; "operator";
    "predictive"; "preproc"; "property"; "punctuation"; "string"; "tag";
    "text.literal"; "title"; "type"; "variable"; "variant" ].

(** [cmd_coverage] on a loaded theme: the lines it prints and the status it
    returns. *)
Definition cmd_coverage (theme : json) : option (list string * Z) :=
  themes <- Json.subscript theme "themes" ;;
  first <- (match themes with
            | JList (t :: _) => Some t
            | _ => None
            end) ;;
  style <- Json.subscript first "style" ;;
  syntax <- Json.subscript style "syntax" ;;
  syntax <- Json.items syntax ;;
  let our_tokens := nodup string_dec (Dict.keys syntax) in
  let core := nodup string_dec CORE_TOKENS in
  let missing := set_diff core our_tokens in
  let covered := set_diff core missing in
  let nl := String "010" "" in
  let heading :=
    [ "Token Coverage";
      "========================================";
      "Our tokens:     " ++ Py.str_nat (List.length our_tokens);
      "Core tokens:    " ++ Py.str_nat (List.length covered) ++ "/"
        ++ Py.str_nat (List.length core) ++ " covered" ] in
  let report :=
    match missing with
    | [] => [ nl ++ "All core tokens covered!" ]
    | _ => (nl ++ "Missing core tokens:")
           :: map (fun t => "  - " ++ t) (sorted missing)
    end in
  let footer :=
    [ nl ++ "Language-specific: "
        ++ Py.str_nat (List.length (set_diff our_tokens core))
        ++ " extra tokens" ] in
  Some (app heading (app report footer),
        match missing with [] => 0 | _ => 1 end).

(** ** Vocabulary of the properties *)

(** [re.match(r"^#[0-9a-f]{6}$", c)] for a [c] that ends in no newline:
    the hash and six lower-case digits. *)
Definition lower_hex_pattern (c : string) : bool :=
  match c with
  | String "#" s =>
      (String.length s =? 6)%nat
      && forallb Py.is_lower_hex_digit (list_ascii_of_string s)
  | _ => false
  end.

(** A byte printed by [f"{n:02x}"] is two lower-case digits that [int(_, 16)]
    reads back. *)
Definition byte_roundtrip (n : Z) : bool :=
  match Py.format_02x n with
  | String a (String b EmptyString) =>
      Py.is_lower_hex_digit a && Py.is_lower_hex_digit b
      && match Py.int16 (String a (String b "")) with
         | Some m => m =? n
         | None => false
         end
  | _ => false
  end.

(** Two hexadecimal digits are read by [int(_, 16)] as a byte. *)
Definition digits_read (a b : ascii) : bool :=
  if Py.is_hex_digit a && Py.is_hex_digit b then
    match Py.int16 (String a (String b "")) with
    | Some n => (0 <=? n) && (n <=? 255)
    | None => false
    end
  else true.

Definition all_ascii : list ascii := map ascii_of_nat (seq 0 256).

(** [len(t["style"].get("players", []))] *)
Definition player_count (t : json) : option nat :=
  style <- Json.subscript t "style" ;;
  p <- Json.get_or style "players" (JList []) ;;
  Json.len p.

(** A template cut into literal text and markers. *)
Inductive segment : Type :=
| Text (s : string)
| Marker (key : string).

(** The segment as it stands in the template. *)
Definition raw (g : segment) : string :=
  match g with
  | Text s => s
  | Marker key => "{{" ++ key ++ "}}"
  end.

(** The segment after resolution against a table of strings: a marker whose
    key is present becomes the value, any other segment stays as it is. *)
Definition resolved (colors : dict) (g : segment) : string :=
  match g with
  | Text s => s
  | Marker key =>
      match Dict.get key colors with
      | Some (JStr v) => v
      | _ => raw g
      end
  end.

Definition render (f : segment -> string) (gs : list segment) : string :=
  fold_right (fun g acc => f g ++ acc) "" gs.

(** Text holds no opening of a marker, also when a marker follows it; a key is
    not empty and holds no closing brace. *)
Definition well_formed (g : segment) : bool :=
  match g with
  | Text s => negb (Py.contains "{{" (s ++ "{"))
  | Marker key =>
      negb (String.eqb key "")
      && forallb (fun c => negb (Ascii.eqb c "}")) (list_ascii_of_string key)
  end.

(** Every value of the colour table is a string. *)
Definition string_table (colors : dict) : Prop :=
  forall k v, Dict.get k colors = Some v -> exists s, v = JStr s.

(** The lightness after [k] rounds of the search. *)
Definition lightness_after {F : Type} `{PyFloat F} (step : F) (k : nat) (l : F) : F :=
  Nat.iter k (fun l => clamp (fadd l step)) l.

(** [contrast_ratio(c, bg) >= min_ratio] *)
Definition meets {F : Type} `{PyFloat F} (gamma : F -> F) (c bg : string) (min_ratio : F) : Prop :=
  exists x, contrast_ratio gamma c bg = Some x /\ fleb min_ratio x = true.

(** [contrast_ratio(c, bg)] is computed and is below [min_ratio]. *)
Definition falls_short {F : Type} `{PyFloat F} (gamma : F -> F) (c bg : string) (min_ratio : F) : Prop :=
  exists x, contrast_ratio gamma c bg = Some x /\ fleb min_ratio x = false.

(** [hsl_to_hex] in binary64 prints a well-formed colour at every fifth
    percentage of saturation and lightness, for the hues [0], [30], ... [360]. *)
Definition binary64_grid_well_formed : bool :=
  forallb (fun h =>
    forallb (fun s =>
      forallb (fun l =>
        match hsl_to_hex (F:=float) (fl (30 * Z.of_nat h)) (fl (5 * Z.of_nat s))
                (fl (5 * Z.of_nat l)) with
        | Some c => lower_hex_pattern c
        | None => false
        end) (seq 0 21)) (seq 0 21)) (seq 0 13).

(** *** Sample documents *)

(** An artifact as [generate_theme] lays it out, with one variant whose
    background is not a colour. *)
Definition malformed_artifact : json :=
  JDict [ ("$schema", JStr "https://zed.dev/schema/themes/v0.2.0.json");
          ("name", JStr "Synthwave84");
          ("author", JStr "hydepwns");
          ("themes",
           JList [ JDict [ ("name", JStr "Synthwave84");
                           ("appearance", JStr "dark");
                           ("style", JDict [ ("background", JStr "#12345");
                                             ("foreground", JStr "#xyz") ]) ] ]) ].

(** A variant with [n] players, each player a triple as [generate_players]
    builds it. *)
Definition variant_with_players (n : nat) : json :=
  JDict [ ("name", JStr "Synthwave84");
          ("appearance", JStr "dark");
          ("style",
           JDict [ ("players",
                    JList (repeat (JDict [ ("cursor", JStr "#ff7edb");
                                           ("background", JStr "#ff7edb");
                                           ("selection", JStr "#ff7edb40") ]) n)) ]) ].

(** The table of the specification's example. *)
Definition deep_only : dict := [("background.deep", JStr "#111111")].

(** A palette and a base template in the layout of the repository's
    [palette.json] and [src/base.json]. *)
Definition sample_palette : json :=
  JDict [ ("base",
           JDict [ ("background",
                    JDict [ ("deep", JStr "#241b2f"); ("surface", JStr "#262335");
                            ("elevated", JStr "#2a2139"); ("active", JStr "#34294f") ]);
                   ("foreground", JDict [ ("primary", JStr "#ffffff") ]);
                   ("border",
                    JDict [ ("default", JStr "#495495"); ("focused", JStr "#ff7edb") ]) ]);
          ("syntax",
           JDict [ ("$comment", JStr "syntax roles"); ("type", JStr "#fe4450");
                   ("keyword", JStr "#fede5d"); ("comment", JStr "#848bbd") ]);
          ("terminal", JDict [ ("red", JStr "#fe4450") ]);
          ("players", JList [ JStr "#ff7edb"; JStr "#36f9f6" ]);
          ("variants",
           JDict [ ("soft", JDict [ ("syntax.type", JStr "#ff6b7a");
                                    ("background.extra", JStr "#2e2a3f") ]) ]) ].

Definition sample_base : json :=
  JDict [ ("$schema", JStr "https://zed.dev/schema/themes/v0.2.0.json");
          ("name", JStr "Synthwave84");
          ("author", JStr "hydepwns");
          ("ui",
           JDict [ ("panel.background", JStr "{{background.surface}}");
                   ("text.muted", JStr "{{foreground.primary}}80");
                   ("text", JStr "{{background.extra}}") ]);
          ("terminal", JDict [ ("ansi.red", JStr "{{terminal.red}}") ]);
          ("syntax_colors",
           JDict [ ("keyword", JList [ JStr "keyword"; JStr "operator" ]);
                   ("foreground", JList [ JStr "variable" ]) ]);
          ("syntax_styles",
           JDict [ ("italic", JList [ JStr "comment" ]);
                   ("bold", JList [ JStr "keyword" ]) ]);
          ("syntax_special", JDict [ ("hint", JStr "{{syntax.type}}") ]);
          ("variants",
           JDict [ ("classic",
                    JDict [ ("name", JStr "Synthwave84");
                            ("line_number_alpha", JStr "80") ]);
                   ("soft",
                    JDict [ ("name", JStr "Synthwave84 Soft");
                            ("line_number_alpha", JStr "70") ]);
                   ("high_contrast",
                    JDict [ ("name", JStr "Synthwave84 High Contrast");
                            ("line_number_alpha", JStr "90") ]) ]) ].

(** *** Style keys *)

(** The keys of a dictionary after [d[k] = _]. *)
Definition add_key (ks : list string) (k : string) : list string :=
  if existsb (String.eqb k) ks then ks else (ks ++ [k])%list.

(** The keys of a dictionary built from items with these keys. *)
Definition keys_of_items (ks : list string) : list string := fold_left add_key ks [].

(** The keys [generate_variant] sets before it merges the resolved blocks. *)
Definition FIXED_STYLE_KEYS : list string :=
  [ "background"; "foreground"; "accent"; "border"; "border.focused";
    "elevated_surface.background"; "surface.background"; "element.background";
    "element.hover"; "element.active"; "element.selected"; "text";
    "editor.background"; "editor.active_line.background"; "editor.line_number" ].

(** The style keys of a generated variant, which the base template alone
    decides. *)
Definition style_key_list (base : json) : option (list string) :=
  ui <- (v <- Json.subscript base "ui" ;; Json.items v) ;;
  terminal <- (v <- Json.subscript base "terminal" ;; Json.items v) ;;
  Some (keys_of_items
          (FIXED_STYLE_KEYS
           ++ keys_of_items (Dict.keys ui)
           ++ keys_of_items (map (append "terminal.") (Dict.keys terminal))
           ++ ["players"; "syntax"])%list).

(** The result of the player-count rule for one variant with [n] players. *)
Definition player_result (repr : json -> string) (name : json) (n : nat) : Result :=
  if (8 <=? n)%nat
  then success (format repr name ++ " has " ++ Py.str_nat n ++ " player colors")
  else failure (format repr name ++ ": only " ++ Py.str_nat n ++ " players").

(** *** The contrast search *)

(** Every candidate of the [n] rounds from lightness [l] falls short. *)
Definition search_exhausted {F : Type} `{PyFloat F} (gamma : F -> F)
    (h s l step : F) (bg : string) (min_ratio : F) (n : nat) : Prop :=
  forall j, (1 <= j <= n)%nat ->
    exists candidate,
      hsl_to_hex h s (lightness_after step j l) = Some candidate
      /\ falls_short gamma candidate bg min_ratio.

(** The step of the search: one point up when it goes lighter, one down
    otherwise. *)
Definition search_step {F : Type} `{PyFloat F} (gamma : F -> F)
    (bg_rgb : rgb) (direction : string) : F :=
  if go_lighter direction (luminance gamma bg_rgb) then fl 1 else fl (-1).

(** The foreground falls short and so does every candidate of the hundred
    rounds. *)
Definition exhausts {F : Type} `{PyFloat F} (gamma : F -> F)
    (fg bg : string) (min_ratio : F) (direction : string) : Prop :=
  falls_short gamma fg bg min_ratio
  /\ exists h s l bg_rgb,
       hex_to_hsl fg = Some (h, s, l)
       /\ hex_to_rgb bg = Some bg_rgb
       /\ search_exhausted gamma h s l (search_step gamma bg_rgb direction)
            bg min_ratio 100.

(** *** Vocabulary of the further properties *)

(** [k] hash signs. *)
Fixpoint hashes (k : nat) : string :=
  match k with
  | O => ""
  | S k' => String "#" (hashes k')
  end.

(** [c.lower()] for one character and for a string, below code point 128. *)
Definition lower_char (a : ascii) : ascii :=
  let n := nat_of_ascii a in
  if ((65 <=? n) && (n <=? 90))%nat then ascii_of_nat (n + 32) else a.

Fixpoint str_lower (s : string) : string :=
  match s with
  | EmptyString => EmptyString
  | String a s' => String (lower_char a) (str_lower s')
  end.

(** The contrast a variant aims at: the table's [target_contrast], or 4.5
    where the table is silent. *)
Definition target_of {F : Type} `{PyFloat F}
    (adjustments : list (string * adjustment)) (variant : string) : F :=
  match Dict.get variant adjustments with
  | Some (_, Some t) => t
  | _ => dec 45 10
  end.

(** Two hexadecimal digits, read and printed again, come out in lower
    case. *)
Definition digits_print_lower (a b : ascii) : bool :=
  if Py.is_hex_digit a && Py.is_hex_digit b then
    match Py.int16 (String a (String b "")) with
    | Some n =>
        String.eqb (Py.format_02x n) (String (lower_char a) (String (lower_char b) ""))
    | None => false
    end
  else true.

(** A list of keys without a repetition. *)
Fixpoint distinct (l : list string) : bool :=
  match l with
  | [] => true
  | k :: l' => negb (existsb (String.eqb k) l') && distinct l'
  end.

(** A document that resolution has nothing to do with: no string in it
    holds the opening of a marker, and no dictionary in it repeats a key. *)
Fixpoint plain_document (v : json) : bool :=
  match v with
  | JStr s => negb (Py.contains "{{" s)
  | JList l =>
      (fix go (l : list json) : bool :=
         match l with
         | [] => true
         | x :: rest => plain_document x && go rest
         end) l
  | JDict d =>
      distinct (Dict.keys d)
      && (fix go (d : list (string * json)) : bool :=
            match d with
            | [] => true
            | (_, x) :: rest => plain_document x && go rest
            end) d
  | _ => true
  end.

(** The segment a resolution leaves behind: a marker whose key the table
    knows has become text. *)
Definition settled (colors : dict) (g : segment) : segment :=
  match g with
  | Text _ => g
  | Marker key =>
      match Dict.get key colors with
      | Some (JStr v) => Text v
      | _ => g
      end
  end.

(** [k in d] for a dictionary. *)
Definition has_key (k : string) (d : dict) : bool :=
  match Dict.get k d with Some _ => true | None => false end.

(** * Properties *)

(** ** Colour conversion *)

Lemma in_all_ascii (a : ascii) : In a all_ascii.
Proof.
  unfold all_ascii. apply in_map_iff. exists (nat_of_ascii a). split.
  - apply ascii_nat_embedding.
  - apply in_seq. pose proof (nat_ascii_bounded a). lia.
Qed.

Lemma byte_roundtrip_table :
  forallb byte_roundtrip (map Z.of_nat (seq 0 256)) = true.
Proof. vm_compute. reflexivity. Qed.

Lemma byte_roundtrip_ok (n : Z) : 0 <= n <= 255 -> byte_roundtrip n = true.
Proof.
  intros Hn. pose proof byte_roundtrip_table as T.
  rewrite forallb_forall in T. apply T.
  apply in_map_iff. exists (Z.to_nat n). split; [lia | apply in_seq; lia].
Qed.

(** What [byte_roundtrip] says, spelled out. *)
Lemma format_02x_byte (n : Z) :
  0 <= n <= 255 ->
  exists a b,
    Py.format_02x n = String a (String b "")
    /\ Py.is_lower_hex_digit a = true /\ Py.is_lower_hex_digit b = true
    /\ Py.int16 (String a (String b "")) = Some n.
Proof.
  intros Hn. pose proof (byte_roundtrip_ok n Hn) as R. unfold byte_roundtrip in R.
  destruct (Py.format_02x n) as [|a [|b [|? ?]]]; try discriminate.
  exists a, b. apply andb_prop in R as [R R3]. apply andb_prop in R as [R1 R2].
  repeat split; auto.
  destruct (Py.int16 (String a (String b ""))) as [m|]; [|discriminate].
  apply Z.eqb_eq in R3. now subst.
Qed.

Lemma lower_hex_not_hash (a : ascii) :
  Py.is_lower_hex_digit a = true -> Ascii.eqb a "#" = false.
Proof.
  intros Ha. destruct (Ascii.eqb_spec a "#") as [->|]; [discriminate|reflexivity].
Qed.

(** C6.  Hex/RGB conversion round-trips exactly: for every integer triple with
    each component in 0..255, [hex_to_rgb (rgb_to_hex (r, g, b))] is
    [(r, g, b)]. *)
Theorem hex_to_rgb_rgb_to_hex (r g b : Z) :
  0 <= r <= 255 -> 0 <= g <= 255 -> 0 <= b <= 255 ->
  hex_to_rgb (rgb_to_hex (r, g, b)) = Some (r, g, b).
Proof.
  intros Hr Hg Hb.
  destruct (format_02x_byte r Hr) as (r1 & r2 & Er & Lr & _ & Ir).
  destruct (format_02x_byte g Hg) as (g1 & g2 & Eg & _ & _ & Ig).
  destruct (format_02x_byte b Hb) as (b1 & b2 & Eb & _ & _ & Ib).
  unfold hex_to_rgb, rgb_to_hex. rewrite Er, Eg, Eb. cbn [append Py.lstrip].
  rewrite Ascii.eqb_refl. cbn [Py.lstrip]. rewrite (lower_hex_not_hash r1 Lr).
  cbn [Py.slice substring Nat.sub].
  rewrite Ir, Ig, Ib. reflexivity.
Qed.

Lemma hex_to_rgb_rgb_to_hex_witness :
  hex_to_rgb (rgb_to_hex (255, 128, 0)) = Some (255, 128, 0).
Proof. apply hex_to_rgb_rgb_to_hex; lia. Defined.

Example hex_to_rgb_alpha : hex_to_rgb "#ff800040" = Some (255, 128, 0).
Proof. reflexivity. Qed.

Example hex_to_rgb_short : hex_to_rgb "#12" = None.
Proof. reflexivity. Qed.

Example rgb_to_hex_example : rgb_to_hex (255, 0, 10) = "#ff000a".
Proof. reflexivity. Qed.

(** ** Variant derivation *)

(** C7.  Deriving the 'classic' variant is the identity, whatever the
    background, the adjustment table and the arithmetic are. *)
Theorem derive_variant_color_classic {F : Type} `{PyFloat F} (gamma : F -> F)
    (adjustments : list (string * adjustment)) (c bg : string) :
  derive_variant_color_in gamma adjustments c bg "classic" = Some c
  /\ derive_variant_color gamma c bg "classic" = Some c.
Proof. split; reflexivity. Qed.

(** ** Validation *)

Section Validation.

Variable repr : json -> string.
Variable set_repr : list string -> string.

(** The colour finder descends into dictionaries only: a list, whatever it
    holds, yields nothing. *)
Lemma find_colors_list (l : list json) (path : string) :
  find_colors (JList l) path = [].
Proof. reflexivity. Qed.

(** C1, at the failing input: the strings [#12345] and [#xyz] are reachable
    in the artifact and break the pattern, yet the check reports only
    success, since the variants sit in a list. *)
Theorem validate_colors_misses_variants :
  color_pattern "#12345" = false
  /\ color_pattern "#xyz" = false
  /\ validate_colors malformed_artifact = [success "All colors valid hex format"].
Proof. repeat split. Qed.

(** Outside lists the check does report: each offending string with its
    path, ten at most. *)
Example validate_colors_reports :
  validate_colors
    (JDict [ ("a", JStr "#12");
             ("b", JDict [ ("c", JStr "#aabbccdd"); ("d", JStr "#aabbccd") ]);
             ("e", JStr "plain") ])
  = [ failure ".a: invalid '#12'"; failure ".b.d: invalid '#aabbccd'" ].
Proof. reflexivity. Qed.

Lemma validate_colors_capped (data : json) :
  (List.length (validate_colors data) <= 10)%nat.
Proof.
  unfold validate_colors, or_else.
  destruct (map _ (firstn 10 _)) eqn:E; [simpl; lia|].
  rewrite <- E, length_map. apply firstn_le_length.
Qed.

(** C10.  With fewer than two entries in the themes list (or no list at all)
    the consistency check returns the one success result, whatever the entries
    are. *)
Theorem validate_consistency_single (d : dict) (l : list json) :
  Json.get_or (JDict d) "themes" (JList []) = Some (JList l) ->
  (List.length l < 2)%nat ->
  validate_consistency repr set_repr (JDict d) = Some [success "Single theme"].
Proof.
  intros Hget Hlen. unfold validate_consistency. rewrite Hget. cbn [bind Json.len].
  apply Nat.ltb_lt in Hlen. now rewrite Hlen.
Qed.

Example validate_consistency_no_themes :
  validate_consistency repr set_repr (JDict []) = Some [success "Single theme"].
Proof. reflexivity. Qed.

Lemma validate_players_themes (ts : list json) :
  (forall t, In t ts ->
     exists n name, player_count t = Some n /\ Json.subscript t "name" = Some name) ->
  exists results,
    mapM (fun t =>
            style <- Json.subscript t "style" ;;
            p <- Json.get_or style "players" (JList []) ;;
            n <- Json.len p ;;
            name <- Json.subscript t "name" ;;
            Some (if (8 <=? n)%nat
                  then success (format repr name ++ " has " ++ Py.str_nat n ++ " player colors")
                  else failure (format repr name ++ ": only " ++ Py.str_nat n ++ " players")))
         ts = Some results
    /\ Forall2 (fun t r =>
                  exists n name,
                    player_count t = Some n
                    /\ Json.subscript t "name" = Some name
                    /\ r = player_result repr name n) ts results.
Proof.
  induction ts as [|t ts IH]; intros Hts.
  - exists []. split; [reflexivity | constructor].
  - destruct (Hts t (or_introl eq_refl)) as (n & name & Hn & Hname).
    destruct IH as (rs & Hrs & Hall); [intros; apply Hts; now right|].
    exists (player_result repr name n :: rs). split.
    + cbn [mapM]. rewrite Hrs. unfold player_count in Hn.
      destruct (Json.subscript t "style") as [style|]; [|discriminate].
      cbn [bind] in *.
      destruct (Json.get_or style "players" (JList [])) as [p|]; [|discriminate].
      cbn [bind] in *. rewrite Hn, Hname. reflexivity.
    + constructor; [|assumption]. now exists n, name.
Qed.

(** C8.  For every variant of the artifact the player-count rule gives one
    result, in order: a pass exactly when the variant's player list has at
    least eight entries, and otherwise a failure that reports the count. *)
Theorem validate_players_rule (d : dict) (ts : list json) :
  Dict.get "themes" d = Some (JList ts) ->
  (forall t, In t ts ->
     exists n name, player_count t = Some n /\ Json.subscript t "name" = Some name) ->
  exists results,
    validate_players repr (JDict d) = Some results
    /\ Forall2 (fun t r =>
                  exists n name,
                    player_count t = Some n
                    /\ Json.subscript t "name" = Some name
                    /\ (ok r = true <-> (8 <= n)%nat)
                    /\ ((n < 8)%nat ->
                        r = failure (format repr name ++ ": only "
                                     ++ Py.str_nat n ++ " players")))
         ts results.
Proof.
  intros Hd Hts. destruct (validate_players_themes ts Hts) as (rs & Hrs & Hall).
  exists rs. split.
  - unfold validate_players. cbn [Json.get_or]. rewrite Hd. cbn [bind Json.iter].
    exact Hrs.
  - eapply Forall2_impl; [|exact Hall].
    intros t r (n & name & Hn & Hname & ->). exists n, name.
    repeat split; auto; unfold player_result.
    + destruct (Nat.leb_spec 8 n); [auto | discriminate].
    + intros Hle. apply Nat.leb_le in Hle. now rewrite Hle.
    + intros Hlt. apply Nat.leb_gt in Hlt. now rewrite Hlt.
Qed.

End Validation.

Lemma validate_consistency_single_witness :
  validate_consistency (fun _ => "") (fun _ => "") (JDict [("themes", JList [JNull])])
  = Some [success "Single theme"].
Proof.
  apply (validate_consistency_single (fun _ => "") (fun _ => "")
           [("themes", JList [JNull])] [JNull]).
  - reflexivity.
  - simpl. lia.
Defined.

Lemma validate_players_rule_witness :
  exists results,
    validate_players (fun _ => "")
      (JDict [("themes", JList [variant_with_players 7; variant_with_players 8])])
    = Some results
    /\ Forall2 (fun t r =>
                  exists n name,
                    player_count t = Some n
                    /\ Json.subscript t "name" = Some name
                    /\ (ok r = true <-> (8 <= n)%nat)
                    /\ ((n < 8)%nat ->
                        r = failure (format (fun _ => "") name ++ ": only "
                                     ++ Py.str_nat n ++ " players")))
         [variant_with_players 7; variant_with_players 8] results.
Proof.
  apply (validate_players_rule (fun _ => "")).
  - reflexivity.
  - intros t [<-|[<-|[]]].
    + exists 7%nat, (JStr "Synthwave84"). split; reflexivity.
    + exists 8%nat, (JStr "Synthwave84"). split; reflexivity.
Defined.

(** Seven players fail the rule and eight pass it. *)
Example validate_players_seven_eight :
  validate_players (fun _ => "")
    (JDict [("themes", JList [variant_with_players 7; variant_with_players 8])])
  = Some [ failure "Synthwave84: only 7 players";
           success "Synthwave84 has 8 player colors" ].
Proof. reflexivity. Qed.


(** ** Template resolution *)

Section Templates.

Variable colors : dict.
Hypothesis colors_strings : string_table colors.

Lemma append_assoc (a b c : string) : (a ++ b) ++ c = a ++ (b ++ c).
Proof. induction a as [|x a IH]; simpl; [reflexivity | now rewrite IH]. Qed.

Lemma length_append (a b : string) :
  String.length (a ++ b) = (String.length a + String.length b)%nat.
Proof. induction a as [|x a IH]; simpl; [reflexivity | now rewrite IH]. Qed.

Lemma replacer_total (key : string) : exists r, replacer colors key = Some r.
Proof.
  unfold replacer. destruct (Dict.get key colors) as [v|] eqn:E; [|eauto].
  destruct (colors_strings _ _ E) as (s & ->). simpl. eauto.
Qed.

Lemma replacer_resolved (key : string) :
  replacer colors key = Some (resolved colors (Marker key)).
Proof.
  unfold replacer, resolved. destruct (Dict.get key colors) as [v|] eqn:E; [|reflexivity].
  destruct (colors_strings _ _ E) as (s & ->). reflexivity.
Qed.

(** No error: against a table of strings every template resolves. *)
Lemma sub_markers_total (s : string) :
  forall skip, exists out, sub_markers colors skip s = Some out.
Proof.
  induction s as [|c s IH]; intros skip; [simpl; eauto|].
  destruct skip as [|k].
  - cbn [sub_markers]. destruct (match_marker (String c s)) as [[key rest]|].
    + destruct (replacer_total key) as (r & ->).
      destruct (IH (String.length key + 3)%nat) as (o & ->). simpl. eauto.
    + destruct (IH 0%nat) as (o & ->). simpl. eauto.
  - cbn [sub_markers]. apply IH.
Qed.

(** The characters of a match already replaced are skipped. *)
Lemma sub_markers_skip (u rest : string) :
  sub_markers colors (String.length u) (u ++ rest) = sub_markers colors 0 rest.
Proof.
  induction u as [|c u IH]; simpl.
  - destruct rest; reflexivity.
  - exact IH.
Qed.

Lemma key_run_key (key rest : string) :
  forallb (fun c => negb (Ascii.eqb c "}")) (list_ascii_of_string key) = true ->
  key_run (key ++ String "}" rest) = (key, String "}" rest).
Proof.
  induction key as [|c key IH]; intros Hk; [reflexivity|].
  simpl in Hk. apply andb_prop in Hk as [Hc Hk].
  simpl. apply negb_true_iff in Hc. rewrite Hc, (IH Hk). reflexivity.
Qed.

Lemma match_marker_marker (key rest : string) :
  well_formed (Marker key) = true ->
  match_marker (raw (Marker key) ++ rest) = Some (key, rest).
Proof.
  intros W. apply andb_prop in W as [Hne Hk].
  unfold raw. rewrite !append_assoc. cbn [append match_marker].
  rewrite (key_run_key key (String "}" rest) Hk).
  destruct key; [discriminate | reflexivity].
Qed.

(** In well-formed text no marker starts, whatever follows the text. *)
Lemma match_marker_text (c : ascii) (t rest : string) :
  Py.contains "{{" (String c t ++ "{") = false ->
  match_marker (String c t ++ rest) = None.
Proof.
  intros Hc. cbn [append Py.contains] in Hc. apply orb_false_elim in Hc as [Hp _].
  cbn [append match_marker].
  destruct (Ascii.eqb_spec c "{") as [->|Hne].
  - destruct t as [|c' t].
    + simpl in Hp. discriminate Hp.
    + cbn [append prefix] in Hp. cbn [append].
      destruct (Ascii.eqb_spec c' "{") as [->|Hne'].
      * simpl in Hp. destruct (t ++ "{"); discriminate Hp.
      * destruct c' as [[] [] [] [] [] [] [] []]; try reflexivity. now elim Hne'.
  - destruct c as [[] [] [] [] [] [] [] []]; try reflexivity. now elim Hne.
Qed.

Lemma contains_tail (p : string) (c : ascii) (s : string) :
  Py.contains p (String c s) = false -> Py.contains p s = false.
Proof. cbn [Py.contains]. intros H. now apply orb_false_elim in H. Qed.

Lemma sub_markers_text (t rest out : string) :
  Py.contains "{{" (t ++ "{") = false ->
  sub_markers colors 0 rest = Some out ->
  sub_markers colors 0 (t ++ rest) = Some (t ++ out).
Proof.
  induction t as [|c t IH]; intros Ht Hrest; [exact Hrest|].
  change (String c t ++ rest) with (String c (t ++ rest)).
  cbn [sub_markers].
  change (String c (t ++ rest)) with (String c t ++ rest).
  rewrite (match_marker_text c t rest Ht).
  rewrite (IH (contains_tail _ _ _ Ht) Hrest). reflexivity.
Qed.

Lemma sub_markers_marker (key rest out : string) :
  well_formed (Marker key) = true ->
  sub_markers colors 0 rest = Some out ->
  sub_markers colors 0 (raw (Marker key) ++ rest)
  = Some (resolved colors (Marker key) ++ out).
Proof.
  intros W Hrest. pose proof (match_marker_marker key rest W) as M.
  remember (raw (Marker key) ++ rest) as s eqn:Es.
  assert (Es' : s = String "{" (("{" ++ key ++ "}}") ++ rest)).
  { subst s. unfold raw. rewrite !append_assoc. reflexivity. }
  rewrite Es' in M |- *. cbn [sub_markers]. rewrite M.
  rewrite replacer_resolved. cbn [bind].
  replace (String.length key + 3)%nat with (String.length ("{" ++ key ++ "}}")).
  - rewrite sub_markers_skip, Hrest. reflexivity.
  - cbn [append String.length]. rewrite length_append. simpl. lia.
Qed.

Lemma resolve_segments (gs : list segment) :
  forallb well_formed gs = true ->
  resolve_template (render raw gs) colors = Some (render (resolved colors) gs).
Proof.
  unfold resolve_template. induction gs as [|g gs IH]; intros W; [reflexivity|].
  simpl in W. apply andb_prop in W as [Wg W]. specialize (IH W).
  cbn [render fold_right]. fold (render raw gs). fold (render (resolved colors) gs).
  destruct g as [t|key].
  - apply sub_markers_text; [|exact IH].
    simpl in Wg. now apply negb_true_iff in Wg.
  - now apply sub_markers_marker.
Qed.

Lemma match_marker_plain (s : string) :
  prefix "{{" s = false -> match_marker s = None.
Proof.
  intros Hp. destruct s as [|a [|b s]]; try reflexivity.
  - destruct a as [[] [] [] [] [] [] [] []]; reflexivity.
  - destruct (Ascii.eqb_spec a "{") as [->|Ha].
    + destruct (Ascii.eqb_spec b "{") as [->|Hb].
      * simpl in Hp. destruct s; discriminate Hp.
      * destruct b as [[] [] [] [] [] [] [] []]; try reflexivity. now elim Hb.
    + destruct a as [[] [] [] [] [] [] [] []]; try reflexivity. now elim Ha.
Qed.

(** A string that holds no [{{] is its own resolution. *)
Lemma sub_markers_plain (s : string) :
  Py.contains "{{" s = false -> sub_markers colors 0 s = Some s.
Proof.
  induction s as [|c s IH]; intros Hc; [reflexivity|].
  cbn [Py.contains] in Hc. apply orb_false_elim in Hc as [Hp Hc].
  cbn [sub_markers]. rewrite (match_marker_plain _ Hp), (IH Hc). reflexivity.
Qed.

Lemma resolve_value_segments (gs : list segment) :
  forallb well_formed gs = true ->
  resolve_value (JStr (render raw gs)) colors
  = Some (JStr (render (resolved colors) gs)).
Proof.
  intros W. pose proof (resolve_segments gs W) as R. cbn [resolve_value].
  destruct (Py.contains "{{" (render raw gs)) eqn:E.
  - rewrite R. reflexivity.
  - unfold resolve_template in R. rewrite (sub_markers_plain _ E) in R.
    now inversion R.
Qed.

End Templates.


Lemma deep_only_strings : string_table deep_only.
Proof.
  intros k v. unfold deep_only. cbn [Dict.get].
  destruct (String.eqb "background.deep" k); [|discriminate].
  intros E. inversion E. now exists "#111111".
Qed.


(** A key may hold an opening brace: the marker starts at the first [{{]. *)
Example resolve_template_leftmost :
  resolve_template "{{{background.deep}}" deep_only = Some "{{{background.deep}}".
Proof. reflexivity. Qed.

(** A table value that is not a string makes [re.sub] raise. *)
Example resolve_template_number :
  resolve_template "{{n}}" [("n", JInt 1)] = None.
Proof. reflexivity. Qed.

(** ** Generation *)

Lemma bind_Some {A B : Type} (m : option A) (f : A -> option B) (b : B) :
  bind m f = Some b -> exists a, m = Some a /\ f a = Some b.
Proof. destruct m as [a|]; [eauto | discriminate]. Qed.

Tactic Notation "bind_inv" hyp(H) "as" ident(a) ident(E) :=
  apply bind_Some in H as (a & E & H).

Section DictKeys.

Context {A : Type}.

Lemma keys_set (k : string) (v : A) (d : Dict.t A) :
  Dict.keys (Dict.set k v d) = add_key (Dict.keys d) k.
Proof.
  unfold add_key. induction d as [|[k' v'] d IH]; [reflexivity|].
  cbn [Dict.set Dict.keys map fst existsb]. rewrite (String.eqb_sym k k').
  destruct (String.eqb k' k); [reflexivity|].
  cbn [orb map fst]. fold (Dict.keys (Dict.set k v d)). rewrite IH.
  fold (Dict.keys d). destruct (existsb (String.eqb k) (Dict.keys d)); reflexivity.
Qed.

Lemma keys_update (items : list (string * A)) :
  forall d : Dict.t A,
    Dict.keys (Dict.update d items) = fold_left add_key (map fst items) (Dict.keys d).
Proof.
  unfold Dict.update. induction items as [|[k v] items IH]; intros d; [reflexivity|].
  cbn [fold_left map fst snd]. rewrite IH, keys_set. reflexivity.
Qed.

Lemma keys_of_items_spec (items : list (string * A)) :
  Dict.keys (Dict.of_items items) = keys_of_items (map fst items).
Proof. unfold Dict.of_items. now rewrite keys_update. Qed.

End DictKeys.

Lemma mapM_Some {A B : Type} (f : A -> option B) (l : list A) (l' : list B) :
  mapM f l = Some l' -> Forall2 (fun a b => f a = Some b) l l'.
Proof.
  revert l'. induction l as [|a l IH]; intros l' E.
  - inversion E. constructor.
  - cbn [mapM] in E. bind_inv E as b Eb. bind_inv E as bs Ebs. inversion E; subst.
    constructor; auto.
Qed.

Section Generation.

Variable repr : json -> string.

(** Resolution keeps the keys of a dictionary. *)
Lemma resolve_value_dict_keys (colors : dict) (d : dict) (v : json) :
  resolve_value (JDict d) colors = Some v ->
  exists d', v = JDict d' /\ Dict.keys d' = keys_of_items (Dict.keys d).
Proof.
  cbn [resolve_value]. intros E. bind_inv E as items Eitems.
  inversion E; subst; clear E.
  exists (Dict.of_items items). split; [reflexivity|].
  rewrite keys_of_items_spec. f_equal.
  revert items Eitems. induction d as [|[k x] d IH]; intros d' E.
  - inversion E. reflexivity.
  - bind_inv E as x' Ex. bind_inv E as rest Erest. inversion E; subst.
    cbn [map fst Dict.keys]. f_equal. now apply IH.
Qed.

Lemma terminal_keys (colors : dict) (d d' : dict) :
  mapM (fun kv => v' <- resolve_value (snd kv) colors ;;
                  Some ("terminal." ++ fst kv, v')) d = Some d' ->
  map fst d' = map (append "terminal.") (Dict.keys d).
Proof.
  revert d'. induction d as [|[k x] d IH]; intros d' E.
  - inversion E. reflexivity.
  - cbn [mapM] in E. bind_inv E as kv Ekv. bind_inv Ekv as x' Ex.
    inversion Ekv; subst. bind_inv E as rest Erest. inversion E; subst.
    cbn [map fst Dict.keys]. f_equal. now apply IH.
Qed.

(** A generated variant is a record of a name, the appearance and a style
    whose keys are those the base template decides. *)
Lemma generate_variant_style (base palette : json) (key : string) (v : json) :
  generate_variant repr base palette key = Some v ->
  exists name style,
    v = JDict [("name", name); ("appearance", JStr "dark"); ("style", JDict style)]
    /\ style_key_list base = Some (Dict.keys style).
Proof.
  unfold generate_variant. intros E.
  bind_inv E as colors Ecolors.
  bind_inv E as config Econfig.
  bind_inv E as ui Eui.
  bind_inv E as terminal Eterminal.
  bind_inv E as syntax Esyntax.
  bind_inv E as c1 Ec1. bind_inv E as c2 Ec2. bind_inv E as c3 Ec3.
  bind_inv E as c4 Ec4. bind_inv E as c5 Ec5. bind_inv E as c6 Ec6.
  bind_inv E as c7 Ec7. bind_inv E as c8 Ec8.
  bind_inv E as alpha Ealpha.
  bind_inv E as ui_items Eitems.
  bind_inv E as players Eplayers.
  bind_inv E as name Ename.
  inversion E; subst; clear E.
  eexists _, _. split; [reflexivity|].
  rewrite keys_of_items_spec. unfold style_key_list.
  bind_inv Eui as ui0 Eui0. rewrite Eui0. cbn [bind].
  bind_inv Eterminal as t0 Et0. rewrite Et0. cbn [bind].
  bind_inv Eterminal as td Etd. rewrite Etd. cbn [bind].
  bind_inv Eterminal as td' Etd'. inversion Eterminal; subst; clear Eterminal.
  assert (Hui : exists d, ui0 = JDict d
                          /\ Dict.keys ui_items = keys_of_items (Dict.keys d)).
  { destruct ui0; cbn [resolve_value] in Eui.
    1-4: inversion Eui; subst; discriminate Eitems.
    - destruct (Py.contains "{{" s).
      + bind_inv Eui as r Er. inversion Eui; subst. discriminate Eitems.
      + inversion Eui; subst. discriminate Eitems.
    - bind_inv Eui as l' El. inversion Eui; subst. discriminate Eitems.
    - exists d. split; [reflexivity|].
      destruct (resolve_value_dict_keys _ _ _ Eui) as (d' & -> & Hk).
      inversion Eitems; subst. exact Hk. }
  destruct Hui as (d & -> & Hk). cbn [Json.items bind].
  cbn [map fst]. rewrite !map_app. cbn [map fst].
  fold (Dict.keys ui_items). rewrite Hk.
  fold (Dict.keys (Dict.of_items td')).
  rewrite keys_of_items_spec, (terminal_keys _ _ _ Etd'). reflexivity.
Qed.

Lemma style_keys_variant (name : json) (style : dict) :
  style_keys (JDict [("name", name); ("appearance", JStr "dark"); ("style", JDict style)])
  = Some (nodup string_dec (Dict.keys style)).
Proof. reflexivity. Qed.

End Generation.



(** The generated sample has three variants, and the soft one resolves a
    reference that only its overrides define. *)
Example generate_theme_sample :
  option_map (fun art => validate_consistency (fun _ => "") (fun _ => "") art)
    (generate_theme (fun _ => "") sample_base sample_palette)
  = Some (Some [success "All 3 variants consistent"]).
Proof. vm_compute. reflexivity. Qed.

(** ** The contrast search, for any arithmetic *)

Section Search.

Context {F : Type} `{PyFloat F}.
Variable gamma : F -> F.

Lemma meets_not_short (c bg : string) (r : F) :
  meets gamma c bg r -> falls_short gamma c bg r -> False.
Proof.
  intros (x & Ex & Hx) (y & Ey & Hy). rewrite Ex in Ey. inversion Ey; subst.
  rewrite Hx in Hy. discriminate Hy.
Qed.

Lemma lightness_after_succ (step : F) (k : nat) (l : F) :
  lightness_after step (S k) l = lightness_after step k (clamp (fadd l step)).
Proof. unfold lightness_after. now rewrite Nat.iter_succ_r. Qed.

(** What the loop returns: the first candidate that meets the ratio, after
    candidates that all fall short, or the colour of the last round when every
    candidate fell short. *)
Lemma ensure_contrast_loop_result (h s : F) (bg : string) (r step : F) (n : nat) :
  forall l out,
    ensure_contrast_loop gamma h s bg r step n l = Some out ->
    (exists k, (1 <= k <= n)%nat
               /\ hsl_to_hex h s (lightness_after step k l) = Some out
               /\ meets gamma out bg r
               /\ search_exhausted gamma h s l step bg r (k - 1))
    \/ (hsl_to_hex h s (lightness_after step n l) = Some out
        /\ search_exhausted gamma h s l step bg r n).
Proof.
  induction n as [|n IH]; intros l out E.
  - right. split; [exact E|]. intros j Hj. lia.
  - cbn [ensure_contrast_loop] in E.
    bind_inv E as candidate Ecand. bind_inv E as c Ec.
    destruct (fleb r c) eqn:Hc.
    + inversion E; subst. left. exists 1%nat. repeat split; try lia.
      * exact Ecand.
      * now exists c.
      * intros j Hj. lia.
    + assert (First : falls_short gamma candidate bg r) by now exists c.
      destruct (IH _ _ E) as [(k & Hk & Ek & Hm & Hex)|(En & Hex)].
      * left. exists (S k). repeat split; try lia.
        -- now rewrite lightness_after_succ.
        -- exact Hm.
        -- intros j Hj. destruct j as [|[|j]]; [lia| |].
           ++ exists candidate. split; [exact Ecand | exact First].
           ++ rewrite lightness_after_succ. apply Hex. lia.
      * right. split; [now rewrite lightness_after_succ|].
        intros j Hj. destruct j as [|[|j]]; [lia| |].
        -- exists candidate. split; [exact Ecand | exact First].
        -- rewrite lightness_after_succ. apply Hex. lia.
Qed.

(** A result of [ensure_contrast] is the foreground, which meets the ratio,
    or a candidate of the search that does, or the colour of the last round of
    an exhausted search. *)
Lemma ensure_contrast_result (fg bg : string) (r : F) (d : string) (out : string) :
  ensure_contrast gamma fg bg r d = Some out ->
  (meets gamma fg bg r /\ out = fg)
  \/ (falls_short gamma fg bg r
      /\ exists h s l bg_rgb,
           hex_to_hsl fg = Some (h, s, l)
           /\ hex_to_rgb bg = Some bg_rgb
           /\ ((meets gamma out bg r
                /\ exists k, (1 <= k <= 100)%nat
                      /\ hsl_to_hex h s
                           (lightness_after (search_step gamma bg_rgb d) k l)
                         = Some out)
               \/ (search_exhausted gamma h s l (search_step gamma bg_rgb d) bg r 100
                   /\ hsl_to_hex h s
                        (lightness_after (search_step gamma bg_rgb d) 100 l)
                      = Some out))).
Proof.
  unfold ensure_contrast. intros E. bind_inv E as c Ec.
  destruct (fleb r c) eqn:Hc.
  - inversion E; subst. left. split; [now exists c | reflexivity].
  - right. split; [now exists c|].
    bind_inv E as hsl0 Ehsl. destruct hsl0 as [[h s] l].
    bind_inv E as bg_rgb Ebg. exists h, s, l, bg_rgb.
    split; [exact Ehsl|]. split; [exact Ebg|].
    destruct (ensure_contrast_loop_result _ _ _ _ _ _ _ _ E)
      as [(k & Hk & Ek & Hm & _)|(En & Hex)].
    + left. split; [exact Hm|]. now exists k.
    + right. split; assumption.
Qed.

End Search.

(** C2, as the code has it.  [ensure_contrast] is idempotent except on an
    exhausted search: when the foreground meets the ratio, or one of the
    hundred candidates does, a second application to the result, with the same
    background, ratio and direction, returns that result.  This holds for any
    arithmetic, binary64 included. *)
Theorem ensure_contrast_idempotent_unless_exhausted {F : Type} `{PyFloat F}
    (gamma : F -> F) (fg bg : string) (r : F) (d : string) (out : string) :
  ensure_contrast gamma fg bg r d = Some out ->
  ~ exhausts gamma fg bg r d ->
  ensure_contrast gamma out bg r d = Some out.
Proof.
  intros E Hne.
  assert (Hm : meets gamma out bg r).
  { destruct (ensure_contrast_result gamma _ _ _ _ _ E)
      as [(Hm & ->)|(Short & h & s & l & bg_rgb & Eh & Eb & [(Hm & _)|(Hex & _)])]; auto.
    elim Hne. split; [exact Short|].
    exists h, s, l, bg_rgb. split; [exact Eh|]. split; [exact Eb | exact Hex]. }
  destruct Hm as (x & Ex & Hx). unfold ensure_contrast. rewrite Ex. cbn [bind].
  now rewrite Hx.
Qed.

Lemma ensure_contrast_idempotent_unless_exhausted_witness :
  ensure_contrast B64.pow24 "#828bc1" "#262335" (dec 45 10) "auto" = Some "#828bc1".
Proof.
  apply (ensure_contrast_idempotent_unless_exhausted B64.pow24
           "#495495" "#262335" (dec 45 10) "auto" "#828bc1").
  - vm_compute. reflexivity.
  - intros (_ & h & s & l & bg_rgb & Eh & Eb & Hex).
    vm_compute in Eh. vm_compute in Eb. inversion Eh. inversion Eb. subst.
    destruct (Hex 20%nat) as (candidate & Ec & x & Ex & Hx); [lia|].
    vm_compute in Ec. inversion Ec. subst.
    vm_compute in Ex. inversion Ex. subst.
    vm_compute in Hx. discriminate Hx.
Defined.

(** The border colour [#495495] on the surface [#262335] has a ratio of 2.2:1;
    the twentieth candidate, [#828bc1], is the first to reach 4.5:1. *)
Example ensure_contrast_searched :
  ensure_contrast B64.pow24 "#495495" "#262335" (dec 45 10) "auto" = Some "#828bc1".
Proof. vm_compute. reflexivity. Qed.

(** Where binary64 and exact arithmetic part: at lightness 100 the source
    computes [q = l + s - l * s] with [l = 1.0].  For the saturation of
    [#050523], [0.7500000000000001], the sum [1.0 + s] rounds so that [q] is
    [0.9999999999999999], and [int(q * 255)] is 254. *)
Example lightness_100_rounds :
  match hex_to_hsl (F:=float) "#050523" with
  | Some (h, s, l) =>
      let s := fquot s (fl 100) in
      fint (fmul (fsub (fadd (fl 1) s) (fmul (fl 1) s)) (fl 255))
  | None => None
  end = Some 254
  /\ bind (hex_to_hsl (F:=float) "#050523")
        (fun hsl0 => let '(h, s, _) := hsl0 in hsl_to_hex h s (fl 100))
     = Some "#fffffe"
  /\ bind (hex_to_hsl (F:=Q) "#050523")
        (fun hsl0 => let '(h, s, _) := hsl0 in hsl_to_hex h s (fl 100))
     = Some "#ffffff".
Proof. repeat split; vm_compute; reflexivity. Qed.

(** C2, as stated, fails in binary64.  Against mid-grey no colour reaches
    7:1, so the search from [#050523] exhausts and returns the colour at
    lightness 100, which rounding makes [#fffffe]; applied to that, the search
    returns [#ffffff]. *)
Lemma ensure_contrast_not_idempotent :
  ensure_contrast B64.pow24 "#050523" "#808080" (fl 7) "auto" = Some "#fffffe"
  /\ ensure_contrast B64.pow24 "#fffffe" "#808080" (fl 7) "auto" = Some "#ffffff"
  /\ ~ (forall fg bg r d out,
          ensure_contrast B64.pow24 fg bg r d = Some out ->
          ensure_contrast B64.pow24 out bg r d = Some out).
Proof.
  assert (E1 : ensure_contrast B64.pow24 "#050523" "#808080" (fl 7) "auto"
               = Some "#fffffe") by (vm_compute; reflexivity).
  assert (E2 : ensure_contrast B64.pow24 "#fffffe" "#808080" (fl 7) "auto"
               = Some "#ffffff") by (vm_compute; reflexivity).
  split; [exact E1|]. split; [exact E2|].
  intros Idem. specialize (Idem _ _ _ _ _ E1). rewrite E2 in Idem. discriminate Idem.
Qed.

(** The same in binary64 for every [gamma], background and ratio: whenever the
    search from [#050523] towards lighter colours ends on a colour that falls
    short, that colour is [#fffffe], and the search from it returns
    [#ffffff]. *)
Lemma exhausted_search_is_no_fixed_point (gamma : float -> float)
    (bg : string) (r : float) (out : string) :
  ensure_contrast gamma "#050523" bg r "lighter" = Some out ->
  falls_short gamma out bg r ->
  out = "#fffffe"
  /\ forall out', ensure_contrast gamma out bg r "lighter" = Some out' ->
                  out' = "#ffffff".
Proof.
  intros E Short.
  assert (Eout : out = "#fffffe").
  { destruct (ensure_contrast_result gamma _ _ _ _ _ E)
      as [(Hm & ->)|(_ & h & s & l & bg_rgb & Eh & _ & [(Hm & _)|(_ & En)])].
    - elim (meets_not_short gamma _ _ _ Hm Short).
    - elim (meets_not_short gamma _ _ _ Hm Short).
    - vm_compute in Eh. inversion Eh; subst. vm_compute in En. now inversion En. }
  subst out. split; [reflexivity|]. intros out' E'.
  assert (White : forallb (fun k =>
            match hex_to_hsl (F:=float) "#fffffe" with
            | Some (h, s, l) =>
                match hsl_to_hex h s (lightness_after (fl 1) k l) with
                | Some c => String.eqb c "#ffffff"
                | None => false
                end
            | None => false
            end) (seq 1 100) = true) by (vm_compute; reflexivity).
  rewrite forallb_forall in White.
  assert (Ek : forall h s l bg_rgb k, (1 <= k <= 100)%nat ->
            hex_to_hsl (F:=float) "#fffffe" = Some (h, s, l) ->
            hsl_to_hex h s
              (lightness_after (search_step gamma bg_rgb "lighter") k l) = Some out' ->
            out' = "#ffffff").
  { intros h s l bg_rgb k Hk Eh Ec.
    change (search_step gamma bg_rgb "lighter") with (fl 1 : float) in Ec.
    assert (Hin : In k (seq 1 100)) by (apply in_seq; lia).
    specialize (White k Hin). cbv beta in White. rewrite Eh, Ec in White.
    now apply String.eqb_eq. }
  destruct (ensure_contrast_result gamma _ _ _ _ _ E')
    as [(Hm & ->)|(_ & h & s & l & bg_rgb & Eh & _ & [(_ & k & Hk & En)|(_ & En)])].
  - elim (meets_not_short gamma _ _ _ Hm Short).
  - exact (Ek h s l bg_rgb k Hk Eh En).
  - apply (Ek h s l bg_rgb 100%nat); [lia | exact Eh | exact En].
Qed.

(** ** Generated colours are well-formed *)

Lemma lower_hex_is_hex (a : ascii) :
  Py.is_lower_hex_digit a = true -> Py.is_hex_digit a = true.
Proof.
  assert (T : forallb (fun a => implb (Py.is_lower_hex_digit a) (Py.is_hex_digit a))
                all_ascii = true) by (vm_compute; reflexivity).
  rewrite forallb_forall in T. specialize (T a (in_all_ascii a)).
  intros L. now rewrite L in T.
Qed.

(** Three bytes print as a colour that both patterns accept and that reads
    back as the same bytes. *)
Lemma rgb_to_hex_bytes (r g b : Z) :
  0 <= r <= 255 -> 0 <= g <= 255 -> 0 <= b <= 255 ->
  String.length (rgb_to_hex (r, g, b)) = 7%nat
  /\ lower_hex_pattern (rgb_to_hex (r, g, b)) = true
  /\ color_pattern (rgb_to_hex (r, g, b)) = true
  /\ hex_to_rgb (rgb_to_hex (r, g, b)) = Some (r, g, b).
Proof.
  intros Hr Hg Hb.
  destruct (format_02x_byte r Hr) as (r1 & r2 & Er & Lr1 & Lr2 & Ir).
  destruct (format_02x_byte g Hg) as (g1 & g2 & Eg & Lg1 & Lg2 & Ig).
  destruct (format_02x_byte b Hb) as (b1 & b2 & Eb & Lb1 & Lb2 & Ib).
  unfold rgb_to_hex. rewrite Er, Eg, Eb. cbn [append].
  split; [reflexivity|]. split; [|split].
  - cbn. now rewrite Lr1, Lr2, Lg1, Lg2, Lb1, Lb2.
  - cbn [color_pattern hex_run at_end].
    rewrite !lower_hex_is_hex by assumption. reflexivity.
  - unfold hex_to_rgb. cbn [Py.lstrip]. rewrite Ascii.eqb_refl. cbn [Py.lstrip].
    rewrite (lower_hex_not_hash r1 Lr1). cbn [Py.slice substring Nat.sub].
    rewrite Ir, Ig, Ib. reflexivity.
Qed.

Lemma Qle_bool_false (x y : Q) : Qle_bool x y = false -> (y < x)%Q.
Proof.
  intros E. apply Qnot_le_lt. intros L. apply Qle_bool_iff in L.
  rewrite L in E. discriminate E.
Qed.

(** The operations of the exact instance, and its literals as fractions. *)
Ltac exact_ops :=
  cbv [dec fl fdiv fmax fmin fmax3 fmin3 clamp fquot fadd fsub fmul fltb fleb
       feqb fmod1 fint float_of_int Exact] in *.

Ltac exact_literals :=
  repeat match goal with
    | |- context [(inject_Z (Zpos ?n) / inject_Z (Zpos ?d))%Q] =>
        let v := eval cbv in (inject_Z (Zpos n) / inject_Z (Zpos d))%Q in
        change (inject_Z (Zpos n) / inject_Z (Zpos d))%Q with v
    | |- context [(?x / inject_Z (Zpos ?d))%Q] =>
        change (x / inject_Z (Zpos d))%Q with (x * (1 # d))%Q
    | |- context [(?x / (Zpos ?n # ?d))%Q] =>
        change (x / (Zpos n # d))%Q with (x * (Zpos d # n))%Q
    | |- context [inject_Z (Zpos ?n)] =>
        change (inject_Z (Zpos n)) with (Zpos n # 1)%Q
    | |- context [inject_Z (Zneg ?n)] =>
        change (inject_Z (Zneg n)) with (Zneg n # 1)%Q
    | |- context [inject_Z Z0] =>
        change (inject_Z Z0) with 0%Q
    end.

(** Case analysis on the comparisons of a goal, innermost first, each read as
    a fact. *)
Ltac plain t :=
  lazymatch t with
  | context [Qle_bool _ _] => fail
  | context [Qeq_bool _ _] => fail
  | _ => idtac
  end.

Ltac exact_le a b :=
  plain a; plain b;
  let E := fresh "C" in
  destruct (Qle_bool a b) eqn:E;
  [apply Qle_bool_iff in E | apply Qle_bool_false in E];
  cbn [negb] in *.

Ltac exact_eq a b :=
  plain a; plain b;
  let E := fresh "C" in
  destruct (Qeq_bool a b) eqn:E;
  [apply Qeq_bool_iff in E | apply Qeq_bool_neq in E].

Ltac exact_cases :=
  repeat match goal with
    | |- context [Qle_bool ?a ?b] => exact_le a b
    | |- context [Qeq_bool ?a ?b] => exact_eq a b
    | H : context [Qle_bool ?a ?b] |- _ => exact_le a b
    | H : context [Qeq_bool ?a ?b] |- _ => exact_eq a b
    end.

Section ExactArithmetic.

Local Open Scope Q_scope.

Lemma Qtrunc_byte (c : Q) : 0 <= c <= 1 -> (0 <= Qtrunc (c * 255) <= 255)%Z.
Proof.
  intros [H0 H1]. unfold Qtrunc.
  assert (L : 0 <= c * 255) by lra.
  apply Qle_bool_iff in L. rewrite L. split.
  - assert (F0 : (Qfloor 0 <= Qfloor (c * 255))%Z) by (apply Qfloor_resp_le; lra).
    exact F0.
  - assert (F1 : (Qfloor (c * 255) <= Qfloor 255)%Z) by (apply Qfloor_resp_le; lra).
    exact F1.
Qed.

Lemma mod1_range (t : Q) : 0 <= t - inject_Z (Qfloor t) < 1.
Proof.
  pose proof (Qfloor_le t) as L. pose proof (Qlt_floor t) as U.
  rewrite inject_Z_plus in U. change (inject_Z 1) with 1 in U. lra.
Qed.

Lemma hue2rgb_between (p q t : Q) :
  p <= q -> p <= hue2rgb p q t <= q.
Proof.
  intros Hpq. unfold hue2rgb. exact_ops. exact_literals.
  pose proof (mod1_range t) as [T0 T1].
  set (u := t - inject_Z (Qfloor t)) in *.
  exact_cases; split; try lra; nra.
Qed.

Lemma hsl_channels_unit (h s l : Q) :
  0 <= s <= 100 -> 0 <= l <= 100 ->
  let '(r, g, b) := hsl_channels h s l in
  0 <= r <= 1 /\ 0 <= g <= 1 /\ 0 <= b <= 1.
Proof.
  intros Hs Hl. unfold hsl_channels.
  set (q := if fltb _ _ then _ else _).
  set (p := fsub _ q).
  destruct (feqb _ _) eqn:E0.
  - clear p q E0. exact_ops. exact_literals. repeat split; lra.
  - assert (B : 0 <= p /\ p <= q /\ q <= 1).
    { clear E0. subst p q. exact_ops. exact_literals. exact_cases; repeat split; nra. }
    destruct B as (Bp & Bpq & Bq).
    pose proof (hue2rgb_between p q) as Hue.
    repeat split;
      match goal with
      | |- context [hue2rgb p q ?t] => specialize (Hue t); lra
      end.
Qed.

Lemma hsl_to_hex_exact (h s l : Q) :
  hsl_to_hex h s l
  = let '(r, g, b) := hsl_channels h s l in
    Some (rgb_to_hex (Qtrunc (r * 255), Qtrunc (g * 255), Qtrunc (b * 255))).
Proof. unfold hsl_to_hex. destruct (hsl_channels h s l) as [[r g] b]. reflexivity. Qed.

End ExactArithmetic.

(** In exact arithmetic [hsl_to_hex] prints three bytes whenever saturation
    and lightness are percentages. *)
Lemma hsl_to_hex_bytes (h s l : Q) :
  (0 <= s <= 100)%Q -> (0 <= l <= 100)%Q ->
  exists r g b,
    hsl_to_hex h s l = Some (rgb_to_hex (r, g, b))
    /\ 0 <= r <= 255 /\ 0 <= g <= 255 /\ 0 <= b <= 255.
Proof.
  intros Hs Hl. pose proof (hsl_channels_unit h s l Hs Hl) as U.
  rewrite hsl_to_hex_exact. destruct (hsl_channels h s l) as [[r g] b].
  destruct U as (Ur & Ug & Ub).
  exists (Qtrunc (r * 255)), (Qtrunc (g * 255)), (Qtrunc (b * 255)).
  split; [reflexivity|]. auto using Qtrunc_byte.
Qed.



(** The same on a grid in binary64, where rounding is at work. *)
Example hsl_to_hex_binary64_grid : binary64_grid_well_formed = true.
Proof. vm_compute. reflexivity. Qed.

Example hsl_to_hex_orange :
  hsl_to_hex (F:=Q) (fl 30) (fl 100) (fl 50) = Some "#ff7f00"
  /\ hsl_to_hex (F:=float) (fl 30) (fl 100) (fl 50) = Some "#ff7f00".
Proof. split; vm_compute; reflexivity. Qed.

(** ** The contrast search in exact arithmetic *)

Lemma digits_read_table :
  forallb (fun a => forallb (digits_read a) all_ascii) all_ascii = true.
Proof. vm_compute. reflexivity. Qed.

Lemma int16_digits (a b : ascii) :
  Py.is_hex_digit a = true -> Py.is_hex_digit b = true ->
  exists n, Py.int16 (String a (String b "")) = Some n /\ 0 <= n <= 255.
Proof.
  intros Ha Hb. pose proof digits_read_table as T.
  rewrite forallb_forall in T. specialize (T a (in_all_ascii a)).
  rewrite forallb_forall in T. specialize (T b (in_all_ascii b)).
  unfold digits_read in T. rewrite Ha, Hb in T. cbn [andb] in T.
  destruct (Py.int16 (String a (String b ""))) as [n|]; [|discriminate T].
  exists n. split; [reflexivity | lia].
Qed.

Lemma hex_digit_not_hash (a : ascii) :
  Py.is_hex_digit a = true -> Ascii.eqb a "#" = false.
Proof.
  intros Ha. destruct (Ascii.eqb_spec a "#") as [->|]; [discriminate|reflexivity].
Qed.

Lemma color_pattern_hash (a : ascii) (s : string) :
  color_pattern (String a s) = true -> a = "#"%char.
Proof.
  destruct (Ascii.eqb_spec a "#") as [->|Hne]; [reflexivity|].
  destruct a as [[] [] [] [] [] [] [] []]; try discriminate. now elim Hne.
Qed.

Lemma hex_run_succ (n : nat) (s rest : string) :
  hex_run (S n) s = Some rest ->
  exists a s', s = String a s' /\ Py.is_hex_digit a = true /\ hex_run n s' = Some rest.
Proof.
  cbn [hex_run]. destruct s as [|a s']; [discriminate|].
  destruct (Py.is_hex_digit a) eqn:Ha; [|discriminate]. eauto.
Qed.

(** A colour that the validator's pattern accepts parses into three bytes. *)
Lemma hex_to_rgb_valid (c : string) :
  color_pattern c = true ->
  exists r g b,
    hex_to_rgb c = Some (r, g, b)
    /\ 0 <= r <= 255 /\ 0 <= g <= 255 /\ 0 <= b <= 255.
Proof.
  intros V. destruct c as [|a s]; [discriminate|].
  pose proof (color_pattern_hash a s V) as ->. cbn [color_pattern] in V.
  destruct (hex_run 6 s) as [rest|] eqn:R; [clear V | discriminate].
  apply hex_run_succ in R as (a1 & s1 & -> & H1 & R).
  apply hex_run_succ in R as (a2 & s2 & -> & H2 & R).
  apply hex_run_succ in R as (a3 & s3 & -> & H3 & R).
  apply hex_run_succ in R as (a4 & s4 & -> & H4 & R).
  apply hex_run_succ in R as (a5 & s5 & -> & H5 & R).
  apply hex_run_succ in R as (a6 & s6 & -> & H6 & R).
  destruct (int16_digits a1 a2 H1 H2) as (r & Er & Br).
  destruct (int16_digits a3 a4 H3 H4) as (g & Eg & Bg).
  destruct (int16_digits a5 a6 H5 H6) as (b & Eb & Bb).
  exists r, g, b. split; [|auto].
  unfold hex_to_rgb. cbn [Py.lstrip]. rewrite Ascii.eqb_refl. cbn [Py.lstrip].
  rewrite (hex_digit_not_hash a1 H1). cbn [Py.slice substring Nat.sub].
  assert (S0 : forall t, substring 0 0 t = "") by (intros []; reflexivity).
  rewrite !S0, Er, Eg, Eb. reflexivity.
Qed.

Section ExactSearch.

Local Open Scope Q_scope.

Variable gamma : Q -> Q.
Hypothesis gamma_nonneg : forall x, 0 < x -> 0 <= gamma x.

Lemma inject_byte (n : Z) :
  (0 <= n <= 255)%Z -> 0 <= inject_Z n * (1 # 255) <= 1.
Proof.
  intros [L U]. rewrite Zle_Qle in L, U.
  change (inject_Z 0) with 0 in L. change (inject_Z 255) with 255 in U. lra.
Qed.

Lemma channel_nonneg (c : Q) : 0 <= c -> 0 <= channel gamma c.
Proof.
  intros Hc. unfold channel. exact_ops. exact_literals. exact_cases.
  - lra.
  - apply gamma_nonneg. lra.
Qed.

Lemma luminance_nonneg (r g b : Z) :
  (0 <= r <= 255)%Z -> (0 <= g <= 255)%Z -> (0 <= b <= 255)%Z ->
  0 <= luminance gamma (r, g, b).
Proof.
  intros Hr Hg Hb. unfold luminance. exact_ops. exact_literals.
  apply inject_byte in Hr, Hg, Hb.
  pose proof (channel_nonneg (inject_Z r * (1 # 255))) as Cr.
  pose proof (channel_nonneg (inject_Z g * (1 # 255))) as Cg.
  pose proof (channel_nonneg (inject_Z b * (1 # 255))) as Cb.
  set (x := channel gamma (inject_Z r * _)) in *.
  set (y := channel gamma (inject_Z g * _)) in *.
  set (z := channel gamma (inject_Z b * _)) in *.
  clearbody x y z.
  assert (0 <= x) by (apply Cr; lra). assert (0 <= y) by (apply Cg; lra).
  assert (0 <= z) by (apply Cb; lra). lra.
Qed.

(** The contrast ratio of two parsed colours is computed. *)
Lemma contrast_ratio_defined (c1 c2 : string) (r1 g1 b1 r2 g2 b2 : Z) :
  hex_to_rgb c1 = Some (r1, g1, b1) ->
  (0 <= r1 <= 255)%Z -> (0 <= g1 <= 255)%Z -> (0 <= b1 <= 255)%Z ->
  hex_to_rgb c2 = Some (r2, g2, b2) ->
  (0 <= r2 <= 255)%Z -> (0 <= g2 <= 255)%Z -> (0 <= b2 <= 255)%Z ->
  exists x, contrast_ratio gamma c1 c2 = Some x.
Proof.
  intros E1 R1 G1 B1 E2 R2 G2 B2. unfold contrast_ratio. rewrite E1, E2. cbn [bind].
  pose proof (luminance_nonneg _ _ _ R1 G1 B1) as L1.
  pose proof (luminance_nonneg _ _ _ R2 G2 B2) as L2.
  set (l1 := luminance gamma (r1, g1, b1)) in *.
  set (l2 := luminance gamma (r2, g2, b2)) in *. clearbody l1 l2.
  exact_ops. exact_literals.
  destruct (Qeq_bool _ 0) eqn:Z; [|eauto].
  apply Qeq_bool_iff in Z. exact_cases; lra.
Qed.

Lemma max_min_unit (r g b : Q) :
  0 <= r <= 1 -> 0 <= g <= 1 -> 0 <= b <= 1 ->
  0 <= fmin3 r g b /\ fmin3 r g b <= fmax3 r g b /\ fmax3 r g b <= 1.
Proof. intros Hr Hg Hb. exact_ops. exact_cases; repeat split; lra. Qed.

Lemma ratio_percent (d D : Q) :
  0 < D -> 0 <= d -> d <= D -> 0 <= d / D * 100 <= 100.
Proof.
  intros HD H0 H1.
  assert (L : 0 <= d / D) by (apply Qle_shift_div_l; lra).
  assert (U : d / D <= 1) by (apply Qle_shift_div_r; lra).
  lra.
Qed.

(** A colour of three bytes has a hue, a saturation and a lightness, the last
    two being percentages. *)
Lemma hex_to_hsl_bytes (c : string) (r g b : Z) :
  hex_to_rgb c = Some (r, g, b) ->
  (0 <= r <= 255)%Z -> (0 <= g <= 255)%Z -> (0 <= b <= 255)%Z ->
  exists h s l,
    hex_to_hsl c = Some (h, s, l) /\ 0 <= s <= 100 /\ 0 <= l <= 100.
Proof.
  intros E Hr Hg Hb. unfold hex_to_hsl. rewrite E. cbn [bind].
  apply inject_byte in Hr, Hg, Hb.
  change (fquot (fl r) (fl 255)) with (inject_Z r * (1 # 255)).
  change (fquot (fl g) (fl 255)) with (inject_Z g * (1 # 255)).
  change (fquot (fl b) (fl 255)) with (inject_Z b * (1 # 255)).
  set (x := inject_Z r * _) in *. set (y := inject_Z g * _) in *.
  set (z := inject_Z b * _) in *.
  destruct (max_min_unit x y z Hr Hg Hb) as (M0 & M1 & M2).
  set (mx := fmax3 x y z) in *. set (mn := fmin3 x y z) in *.
  clearbody mx mn x y z. exact_ops. exact_literals.
  exact_cases; cbn [bind]; try (exfalso; lra);
    (eexists _, _, _; split; [reflexivity|]; split; [|lra]);
    try lra; apply ratio_percent; lra.
Qed.

Lemma clamp_percent (x : Q) : 0 <= clamp x <= 100.
Proof. exact_ops. exact_literals. exact_cases; lra. Qed.

Lemma lightness_after_percent (step : Q) (k : nat) (l : Q) :
  0 <= lightness_after step (S k) l <= 100.
Proof. apply clamp_percent. Qed.

(** A hundred steps up from a lightness that is not negative end at 100. *)
Lemma lightness_up (k : nat) (l : Q) :
  0 <= l ->
  inject_Z (Z.of_nat k) <= 100 ->
  inject_Z (Z.of_nat k) <= lightness_after (fl 1) k l.
Proof.
  intros Hl. induction k as [|k IH]; intros Hk.
  - exact Hl.
  - rewrite Nat2Z.inj_succ in *. unfold Z.succ in *. rewrite inject_Z_plus in *.
    change (inject_Z 1) with 1 in *.
    assert (IH' : inject_Z (Z.of_nat k) <= lightness_after (fl 1) k l)
      by (apply IH; lra).
    change (lightness_after (fl 1) (S k) l)
      with (clamp (fadd (lightness_after (fl 1) k l) (fl 1))).
    set (v := lightness_after (fl 1) k l) in *. clearbody v.
    exact_ops. exact_literals. exact_cases; lra.
Qed.

(** A hundred steps down from a lightness of at most 100 end at 0. *)
Lemma lightness_down (k : nat) (l : Q) :
  l <= 100 ->
  inject_Z (Z.of_nat k) <= 100 ->
  lightness_after (fl (-1)) k l <= 100 - inject_Z (Z.of_nat k).
Proof.
  intros Hl. induction k as [|k IH]; intros Hk.
  - change (inject_Z (Z.of_nat 0)) with 0.
    change (lightness_after (fl (-1)) 0 l) with l. lra.
  - rewrite Nat2Z.inj_succ in *. unfold Z.succ in *. rewrite inject_Z_plus in *.
    change (inject_Z 1) with 1 in *.
    assert (IH' : lightness_after (fl (-1)) k l <= 100 - inject_Z (Z.of_nat k))
      by (apply IH; lra).
    change (lightness_after (fl (-1)) (S k) l)
      with (clamp (fadd (lightness_after (fl (-1)) k l) (fl (-1)))).
    set (v := lightness_after (fl (-1)) k l) in *. clearbody v.
    exact_ops. exact_literals. exact_cases; lra.
Qed.

Lemma lightness_extreme (lighter : bool) (l : Q) :
  0 <= l <= 100 ->
  lightness_after (if lighter then fl 1 else fl (-1)) 100 l
  == (if lighter then fl 100 else fl 0).
Proof.
  intros [L U]. destruct lighter.
  - pose proof (lightness_up 100 l L) as A.
    pose proof (lightness_after_percent (fl 1) 99 l) as [_ B].
    change (inject_Z (Z.of_nat 100)) with 100 in A.
    change (fl 100 : Q) with 100. apply Qle_antisym; [exact B | apply A; lra].
  - pose proof (lightness_down 100 l U) as A.
    pose proof (lightness_after_percent (fl (-1)) 99 l) as [B _].
    change (inject_Z (Z.of_nat 100)) with 100 in A.
    change (fl 0 : Q) with 0. apply Qle_antisym; [|exact B].
    assert (A' : lightness_after (fl (-1)) 100 l <= 100 - 100) by (apply A; lra).
    lra.
Qed.

Lemma Qtrunc_comp (x y : Q) : x == y -> Qtrunc x = Qtrunc y.
Proof.
  intros E. unfold Qtrunc. rewrite (Qfloor_comp _ _ E), (Qceiling_comp _ _ E).
  destruct (Qle_bool 0 x) eqn:X, (Qle_bool 0 y) eqn:Y; try reflexivity; exfalso.
  - apply Qle_bool_iff in X. apply Qle_bool_false in Y. lra.
  - apply Qle_bool_iff in Y. apply Qle_bool_false in X. lra.
Qed.

(** At lightness 100 every channel is one, at lightness 0 every channel is
    zero. *)
Lemma hsl_channels_extreme (lighter : bool) (h s l : Q) :
  l == (if lighter then 100 else 0) ->
  let v := if lighter then 1 else 0 in
  let '(r, g, b) := hsl_channels h s l in
  r == v /\ g == v /\ b == v.
Proof.
  intros El v. unfold hsl_channels.
  set (q := if fltb _ _ then _ else _).
  set (p := fsub _ q).
  destruct (feqb _ _) eqn:E0.
  - clear p q E0. subst v. exact_ops. exact_literals.
    destruct lighter; repeat split; lra.
  - assert (B : p == v /\ q == v).
    { clear E0. subst p q v. exact_ops. exact_literals.
      destruct lighter; exact_cases; split; nra. }
    destruct B as (Bp & Bq).
    pose proof (hue2rgb_between p q) as Hue.
    repeat split;
      match goal with
      | |- hue2rgb p q ?t == _ => specialize (Hue t); lra
      end.
Qed.

Lemma hsl_to_hex_extreme (lighter : bool) (h s l : Q) :
  l == (if lighter then 100 else 0) ->
  hsl_to_hex h s l = Some (if lighter then "#ffffff" else "#000000")%string.
Proof.
  intros El. pose proof (hsl_channels_extreme lighter h s l El) as C.
  rewrite hsl_to_hex_exact. destruct (hsl_channels h s l) as [[r g] b].
  cbv zeta in C. destruct C as (Cr & Cg & Cb).
  assert (T : forall c, c == (if lighter then 1 else 0) ->
                        Qtrunc (c * 255) = if lighter then 255%Z else 0%Z).
  { intros c Ec.
    rewrite (Qtrunc_comp (c * 255) (if lighter then 255 else 0)).
    - destruct lighter; reflexivity.
    - destruct lighter; lra. }
  rewrite (T r Cr), (T g Cg), (T b Cb). destruct lighter; reflexivity.
Qed.

(** In exact arithmetic the loop always returns a colour. *)
Lemma ensure_contrast_loop_defined (h s : Q) (bg : string) (r step : Q)
    (br bg_ bb : Z) (n : nat) :
  0 <= s <= 100 ->
  hex_to_rgb bg = Some (br, bg_, bb) ->
  (0 <= br <= 255)%Z -> (0 <= bg_ <= 255)%Z -> (0 <= bb <= 255)%Z ->
  forall l, 0 <= l <= 100 ->
    exists out, ensure_contrast_loop gamma h s bg r step n l = Some out.
Proof.
  intros Hs Ebg Br Bg Bb. induction n as [|n IH]; intros l Hl.
  - cbn [ensure_contrast_loop].
    destruct (hsl_to_hex_bytes h s l Hs Hl) as (x & y & z & E & _). eauto.
  - cbn [ensure_contrast_loop].
    pose proof (clamp_percent (fadd l step)) as Hc.
    destruct (hsl_to_hex_bytes h s _ Hs Hc) as (x & y & z & E & Bx & By & Bz).
    rewrite E. cbn [bind].
    destruct (rgb_to_hex_bytes _ _ _ Bx By Bz) as (_ & _ & _ & Ec).
    destruct (contrast_ratio_defined _ _ _ _ _ _ _ _ Ec Bx By Bz Ebg Br Bg Bb)
      as (c & ->).
    cbn [bind]. destruct (fleb r c); [eauto | apply IH, Hc].
Qed.

(** In exact arithmetic [ensure_contrast] returns a colour for every pair of
    well-formed colours. *)
Lemma ensure_contrast_defined (fg bg : string) (r : Q) (d : string) :
  color_pattern fg = true -> color_pattern bg = true ->
  exists out, ensure_contrast gamma fg bg r d = Some out.
Proof.
  intros Vf Vb.
  destruct (hex_to_rgb_valid fg Vf) as (fr & fg_ & fb & Ef & Fr & Fg & Fb).
  destruct (hex_to_rgb_valid bg Vb) as (br & bg_ & bb & Eb & Br & Bg & Bb).
  destruct (contrast_ratio_defined _ _ _ _ _ _ _ _ Ef Fr Fg Fb Eb Br Bg Bb) as (c & Ec).
  destruct (hex_to_hsl_bytes _ _ _ _ Ef Fr Fg Fb) as (h & s & l & Eh & Hs & Hl).
  unfold ensure_contrast. rewrite Ec. cbn [bind].
  destruct (fleb r c); [eauto|]. rewrite Eh, Eb. cbn [bind].
  now apply (ensure_contrast_loop_defined h s bg r _ br bg_ bb).
Qed.

Lemma clamp_extreme (lighter : bool) (l : Q) :
  l == (if lighter then 100 else 0) ->
  clamp (fadd l (if lighter then fl 1 else fl (-1))) == (if lighter then 100 else 0).
Proof.
  intros El. exact_ops. destruct lighter; exact_literals; exact_cases; lra.
Qed.

(** From an extreme lightness whose colour falls short, the search stays on
    that colour. *)
Lemma ensure_contrast_loop_extreme (lighter : bool) (h s : Q) (bg : string)
    (r : Q) (n : nat) :
  falls_short gamma (if lighter then "#ffffff" else "#000000")%string bg r ->
  forall l, l == (if lighter then 100 else 0) ->
    ensure_contrast_loop gamma h s bg r (if lighter then fl 1 else fl (-1)) n l
    = Some (if lighter then "#ffffff" else "#000000")%string.
Proof.
  intros (x & Ex & Hx). induction n as [|n IH]; intros l El.
  - now apply hsl_to_hex_extreme.
  - cbn [ensure_contrast_loop]. pose proof (clamp_extreme lighter l El) as Ec.
    rewrite (hsl_to_hex_extreme lighter h s _ Ec). cbn [bind].
    rewrite Ex. cbn [bind]. rewrite Hx. now apply IH.
Qed.

(** In exact arithmetic [ensure_contrast] is idempotent without exception:
    an exhausted search ends on white or black, from which the same search
    does not move. *)
Lemma ensure_contrast_idempotent_exact (fg bg : string) (r : Q) (d : string)
    (out : string) :
  color_pattern fg = true ->
  ensure_contrast gamma fg bg r d = Some out ->
  ensure_contrast gamma out bg r d = Some out.
Proof.
  intros Vf E.
  destruct (hex_to_rgb_valid fg Vf) as (fr & fg_ & fb & Ef & Fr & Fg & Fb).
  destruct (hex_to_hsl_bytes _ _ _ _ Ef Fr Fg Fb) as (h0 & s0 & l0 & Eh0 & _ & Hl0).
  assert (Met : meets gamma out bg r -> ensure_contrast gamma out bg r d = Some out).
  { intros (x & Ex & Hx). unfold ensure_contrast. rewrite Ex. cbn [bind].
    now rewrite Hx. }
  destruct (ensure_contrast_result gamma _ _ _ _ _ E)
    as [(Hm & ->)|(Short & h & s & l & bg_rgb & Eh & Eb & [(Hm & _)|(Hex & En)])];
    auto.
  rewrite Eh in Eh0. inversion Eh0; subst h0 s0 l0.
  destruct (Hex 100%nat) as (last & El & Hlast); [lia|].
  rewrite En in El. inversion El; subst last. clear El.
  unfold search_step in *.
  set (lighter := go_lighter d (luminance gamma bg_rgb)) in *.
  rewrite (hsl_to_hex_extreme lighter h s _ (lightness_extreme lighter l Hl0)) in En.
  inversion En; subst out. clear En.
  destruct Hlast as (x & Ex & Hx).
  unfold ensure_contrast. rewrite Ex. cbn [bind]. rewrite Hx, Eb. cbn [bind].
  fold lighter.
  assert (Hsl : exists h' s' l',
             hex_to_hsl (F:=Q) (if lighter then "#ffffff" else "#000000")%string
             = Some (h', s', l')
             /\ l' == (if lighter then 100 else 0)).
  { destruct lighter; eexists _, _, _; (split; [vm_compute; reflexivity|]);
      reflexivity. }
  destruct Hsl as (h' & s' & l' & -> & El'). cbn [bind].
  apply ensure_contrast_loop_extreme; [|exact El']. now exists x.
Qed.

(** The colours of the pipeline keep the validator's format: what
    [adjust_lightness] returns, and what [ensure_contrast] returns. *)
Lemma adjust_lightness_well_formed (c : string) (delta : Q) :
  color_pattern c = true ->
  exists out,
    adjust_lightness c delta = Some out
    /\ lower_hex_pattern out = true /\ color_pattern out = true.
Proof.
  intros V. destruct (hex_to_rgb_valid c V) as (r & g & b & E & Br & Bg & Bb).
  destruct (hex_to_hsl_bytes _ _ _ _ E Br Bg Bb) as (h & s & l & Eh & Hs & _).
  unfold adjust_lightness. rewrite Eh. cbn [bind].
  destruct (hsl_to_hex_bytes h s _ Hs (clamp_percent (fadd l delta)))
    as (x & y & z & -> & Bx & By & Bz).
  destruct (rgb_to_hex_bytes _ _ _ Bx By Bz) as (_ & P & C & _). eauto.
Qed.

Lemma ensure_contrast_well_formed (fg bg : string) (r : Q) (d : string)
    (out : string) :
  color_pattern fg = true ->
  ensure_contrast gamma fg bg r d = Some out ->
  color_pattern out = true.
Proof.
  intros Vf E.
  destruct (hex_to_rgb_valid fg Vf) as (fr & fg_ & fb & Ef & Fr & Fg & Fb).
  destruct (hex_to_hsl_bytes _ _ _ _ Ef Fr Fg Fb) as (h0 & s0 & l0 & Eh0 & Hs0 & _).
  assert (Cand : forall (step : Q) k,
             hsl_to_hex h0 s0 (lightness_after step (S k) l0) = Some out ->
             color_pattern out = true).
  { intros step k Ek.
    destruct (hsl_to_hex_bytes h0 s0 _ Hs0 (lightness_after_percent step k l0))
      as (x & y & z & Ex & Bx & By & Bz).
    rewrite Ex in Ek. inversion Ek; subst out.
    now destruct (rgb_to_hex_bytes _ _ _ Bx By Bz) as (_ & _ & C & _). }
  destruct (ensure_contrast_result gamma _ _ _ _ _ E)
    as [(_ & ->)|(_ & h & s & l & bg_rgb & Eh & Eb & [(_ & k & Hk & En)|(_ & En)])].
  - exact Vf.
  - rewrite Eh in Eh0. inversion Eh0; subst h0 s0 l0.
    destruct k as [|k]; [lia|]. exact (Cand _ k En).
  - rewrite Eh in Eh0. inversion Eh0; subst h0 s0 l0.
    exact (Cand _ 99%nat En).
Qed.

End ExactSearch.


Lemma square_nonneg (x : Q) : (0 < x)%Q -> (0 <= x * x)%Q.
Proof. intros Hx. nra. Qed.


(** Against mid-grey no colour reaches 7:1: the search exhausts, and in exact
    arithmetic it ends on white. *)
Example ensure_contrast_exhausted :
  ensure_contrast (fun x => x * x)%Q "#848bbd" "#808080" (fl 7) "auto"
  = Some "#ffffff".
Proof. vm_compute. reflexivity. Qed.

(** * Further properties *)

(** ** Parsing and printing colours *)

Lemma lstrip_hashes (k : nat) (a : ascii) (s : string) :
  Ascii.eqb a "#" = false ->
  Py.lstrip "#" (hashes k ++ String a s) = String a s.
Proof.
  intros Ha. induction k as [|k IH]; cbn [hashes append Py.lstrip].
  - now rewrite Ha.
  - exact IH.
Qed.

(** X1.  [hex_to_rgb] reads the six digits that follow the leading hash
    signs, however many of those there are, and ignores what comes after
    the digits, such as an alpha suffix. *)
Theorem hex_to_rgb_six_digits (k : nat) (digits suffix : string) :
  hex_run 6 digits = Some "" ->
  exists r g b,
    hex_to_rgb (hashes k ++ digits ++ suffix) = Some (r, g, b)
    /\ hex_to_rgb digits = Some (r, g, b)
    /\ 0 <= r <= 255 /\ 0 <= g <= 255 /\ 0 <= b <= 255.
Proof.
  intros R.
  apply hex_run_succ in R as (a1 & s1 & -> & H1 & R).
  apply hex_run_succ in R as (a2 & s2 & -> & H2 & R).
  apply hex_run_succ in R as (a3 & s3 & -> & H3 & R).
  apply hex_run_succ in R as (a4 & s4 & -> & H4 & R).
  apply hex_run_succ in R as (a5 & s5 & -> & H5 & R).
  apply hex_run_succ in R as (a6 & s6 & -> & H6 & R).
  cbn [hex_run] in R. inversion R; subst s6.
  destruct (int16_digits a1 a2 H1 H2) as (r & Er & Br).
  destruct (int16_digits a3 a4 H3 H4) as (g & Eg & Bg).
  destruct (int16_digits a5 a6 H5 H6) as (b & Eb & Bb).
  exists r, g, b.
  assert (S0 : forall t, substring 0 0 t = "") by (intros []; reflexivity).
  split; [|split; [|auto]].
  - unfold hex_to_rgb. cbn [append].
    rewrite (lstrip_hashes k a1 _ (hex_digit_not_hash a1 H1)).
    cbn [Py.slice substring Nat.sub]. rewrite !S0, Er, Eg, Eb. reflexivity.
  - unfold hex_to_rgb. cbn [Py.lstrip]. rewrite (hex_digit_not_hash a1 H1).
    cbn [Py.slice substring Nat.sub]. rewrite Er, Eg, Eb. reflexivity.
Qed.

Lemma hex_to_rgb_six_digits_witness :
  exists r g b,
    hex_to_rgb (hashes 2 ++ "Ff8000" ++ "40") = Some (r, g, b)
    /\ hex_to_rgb "Ff8000" = Some (r, g, b)
    /\ 0 <= r <= 255 /\ 0 <= g <= 255 /\ 0 <= b <= 255.
Proof. apply (hex_to_rgb_six_digits 2 "Ff8000" "40"). reflexivity. Defined.

(** X2.  A colour of fewer than five characters after its hash signs, the
    three-digit shorthand for one, makes [hex_to_rgb] raise: the slice for
    blue is empty. *)
Theorem hex_to_rgb_shorthand (c : string) :
  (String.length (Py.lstrip "#" c) <= 4)%nat ->
  hex_to_rgb c = None.
Proof.
  intros L. unfold hex_to_rgb. set (h := Py.lstrip "#" c) in *. clearbody h.
  assert (B : Py.slice 4 6 (Py.slice 0 6 h) = "").
  { destruct h as [|a1 [|a2 [|a3 [|a4 [|a5 h]]]]]; try reflexivity.
    cbn [String.length] in L. lia. }
  rewrite B.
  destruct (Py.int16 (Py.slice 0 2 (Py.slice 0 6 h))); [|reflexivity].
  destruct (Py.int16 (Py.slice 2 4 (Py.slice 0 6 h))); reflexivity.
Qed.

Lemma hex_to_rgb_shorthand_witness : hex_to_rgb "#fff" = None.
Proof. apply hex_to_rgb_shorthand. simpl. lia. Defined.

Lemma digits_print_lower_table :
  forallb (fun a => forallb (digits_print_lower a) all_ascii) all_ascii = true.
Proof. vm_compute. reflexivity. Qed.

Lemma format_02x_digits (a b : ascii) :
  Py.is_hex_digit a = true -> Py.is_hex_digit b = true ->
  exists n,
    Py.int16 (String a (String b "")) = Some n
    /\ Py.format_02x n = String (lower_char a) (String (lower_char b) "").
Proof.
  intros Ha Hb. pose proof digits_print_lower_table as T.
  rewrite forallb_forall in T. specialize (T a (in_all_ascii a)).
  rewrite forallb_forall in T. specialize (T b (in_all_ascii b)).
  unfold digits_print_lower in T. rewrite Ha, Hb in T. cbn [andb] in T.
  destruct (Py.int16 (String a (String b ""))) as [n|]; [|discriminate T].
  exists n. split; [reflexivity | now apply String.eqb_eq].
Qed.

(** A well-formed colour parses into three bytes, which print as its first
    seven characters in lower case. *)
Lemma parse_print_lower (c : string) :
  color_pattern c = true ->
  exists r g b,
    hex_to_rgb c = Some (r, g, b)
    /\ 0 <= r <= 255 /\ 0 <= g <= 255 /\ 0 <= b <= 255
    /\ rgb_to_hex (r, g, b) = str_lower (substring 0 7 c).
Proof.
  intros V. destruct c as [|a s]; [discriminate|].
  pose proof (color_pattern_hash a s V) as ->. cbn [color_pattern] in V.
  destruct (hex_run 6 s) as [rest|] eqn:R; [clear V | discriminate].
  apply hex_run_succ in R as (a1 & s1 & -> & H1 & R).
  apply hex_run_succ in R as (a2 & s2 & -> & H2 & R).
  apply hex_run_succ in R as (a3 & s3 & -> & H3 & R).
  apply hex_run_succ in R as (a4 & s4 & -> & H4 & R).
  apply hex_run_succ in R as (a5 & s5 & -> & H5 & R).
  apply hex_run_succ in R as (a6 & s6 & -> & H6 & R).
  destruct (format_02x_digits a1 a2 H1 H2) as (r & Er & Pr).
  destruct (format_02x_digits a3 a4 H3 H4) as (g & Eg & Pg).
  destruct (format_02x_digits a5 a6 H5 H6) as (b & Eb & Pb).
  destruct (int16_digits a1 a2 H1 H2) as (r' & Er' & Br).
  destruct (int16_digits a3 a4 H3 H4) as (g' & Eg' & Bg).
  destruct (int16_digits a5 a6 H5 H6) as (b' & Eb' & Bb).
  rewrite Er in Er'. rewrite Eg in Eg'. rewrite Eb in Eb'.
  inversion Er'; inversion Eg'; inversion Eb'; subst r' g' b'.
  exists r, g, b.
  assert (S0 : forall t, substring 0 0 t = "") by (intros []; reflexivity).
  split; [|repeat split; try lia].
  - unfold hex_to_rgb. cbn [Py.lstrip]. rewrite Ascii.eqb_refl. cbn [Py.lstrip].
    rewrite (hex_digit_not_hash a1 H1). cbn [Py.slice substring Nat.sub].
    rewrite !S0, Er, Eg, Eb. reflexivity.
  - unfold rgb_to_hex. rewrite Pr, Pg, Pb. cbn [substring str_lower append].
    rewrite S0. reflexivity.
Qed.

(** X3.  Parsing a well-formed colour and printing it again gives its first
    seven characters in lower case: the alpha suffix is dropped and the case
    of the digits is normalised. *)
Theorem rgb_to_hex_hex_to_rgb (c : string) :
  color_pattern c = true ->
  exists rgb0,
    hex_to_rgb c = Some rgb0
    /\ rgb_to_hex rgb0 = str_lower (substring 0 7 c).
Proof.
  intros V. destruct (parse_print_lower c V) as (r & g & b & E & _ & _ & _ & P).
  now exists (r, g, b).
Qed.

Lemma rgb_to_hex_hex_to_rgb_witness :
  exists rgb0,
    hex_to_rgb "#FF7EDBcc" = Some rgb0
    /\ rgb_to_hex rgb0 = str_lower (substring 0 7 "#FF7EDBcc").
Proof. apply rgb_to_hex_hex_to_rgb. reflexivity. Defined.

Example rgb_to_hex_hex_to_rgb_example :
  option_map rgb_to_hex (hex_to_rgb "#FF7EDBcc") = Some "#ff7edb".
Proof. reflexivity. Qed.

(** ** Colour arithmetic without rounding *)

Lemma quot_facts (a d : Q) :
  (0 < d -> - d <= a <= d -> a / d * d == a /\ -1 <= a / d <= 1)%Q.
Proof.
  intros Hd [L U]. split; [field; lra|]. split.
  - apply Qle_shift_div_l; lra.
  - apply Qle_shift_div_r; lra.
Qed.

Lemma quot_pos (a d : Q) : (0 < d -> 0 < a -> 0 < a / d)%Q.
Proof. intros Hd Ha. apply Qlt_shift_div_l; lra. Qed.

Lemma quot_nonneg (a d : Q) : (0 < d -> 0 <= a -> 0 <= a / d)%Q.
Proof. intros Hd Ha. apply Qle_shift_div_l; lra. Qed.

Lemma quot_neg (a d : Q) : (0 < d -> a < 0 -> a / d < 0)%Q.
Proof. intros Hd Ha. apply Qlt_shift_div_r; lra. Qed.

Lemma Qfloor_range (t : Q) (k : Z) :
  (inject_Z k <= t)%Q -> (t < inject_Z k + 1)%Q -> Qfloor t = k.
Proof.
  intros L U. pose proof (Qfloor_le t) as A. pose proof (Qlt_floor t) as B.
  rewrite inject_Z_plus in B. change (inject_Z 1) with 1%Q in B.
  assert (A' : (inject_Z (Qfloor t) < inject_Z k + 1)%Q) by lra.
  assert (B' : (inject_Z k < inject_Z (Qfloor t) + 1)%Q) by lra.
  change 1%Q with (inject_Z 1) in A', B'. rewrite <- inject_Z_plus in A', B'.
  rewrite <- Zlt_Qlt in A', B'. lia.
Qed.

Lemma floor_cases (t : Q) :
  (-1 <= t < 2)%Q ->
  ((t < 0)%Q /\ Qfloor t = -1)
  \/ ((0 <= t < 1)%Q /\ Qfloor t = 0)
  \/ ((1 <= t)%Q /\ Qfloor t = 1).
Proof.
  intros [L U]. destruct (Qlt_le_dec t 0) as [N|P].
  - left. split; [exact N|]. apply Qfloor_range.
    + change (inject_Z (-1)) with (-1)%Q. lra.
    + change (inject_Z (-1)) with (-1)%Q. lra.
  - right. destruct (Qlt_le_dec t 1) as [N1|P1].
    + left. split; [lra|]. apply Qfloor_range.
      * change (inject_Z 0) with 0%Q. lra.
      * change (inject_Z 0) with 0%Q. lra.
    + right. split; [lra|]. apply Qfloor_range.
      * change (inject_Z 1) with 1%Q. lra.
      * change (inject_Z 1) with 1%Q. lra.
Qed.

(** A quotient of the goal gets a name, with the equation that defines it
    and its bounds. *)
Ltac name_quotient :=
  match goal with
  | |- context [(?a / ?d)%Q] =>
      let P := fresh "P" in
      assert (P : (0 < d)%Q) by lra;
      let E := fresh "E" in
      let R := fresh "R" in
      destruct (quot_facts a d P) as (E & R); [lra|];
      try (let S := fresh "S" in
           assert (S : (0 < a / d)%Q) by (apply quot_pos; lra));
      try (let S := fresh "S" in
           assert (S : (0 <= a / d)%Q) by (apply quot_nonneg; lra));
      try (let S := fresh "S" in
           assert (S : (a / d < 0)%Q) by (apply quot_neg; lra));
      let q := fresh "q" in
      set (q := (a / d)%Q) in *; clearbody q
  end.

Ltac quotient_product :=
  try match goal with
      | E1 : (?qq * ?d == ?num)%Q, E2 : (?ss * ?sum == ?d)%Q |- _ =>
          let E := fresh "E" in
          assert (E : (qq * (ss * sum) == num)%Q) by (rewrite E2; exact E1)
      end.

(** The integer part of a hue shifted by a third is -1, 0 or 1. *)
Ltac name_floor :=
  match goal with
  | |- context [Qfloor ?t] =>
      let Ft := fresh "Ft" in
      let Ef := fresh "Ef" in
      destruct (floor_cases t) as [(Ft & Ef)|[(Ft & Ef)|(Ft & Ef)]];
      [lra | rewrite Ef | rewrite Ef | rewrite Ef]
  end.

Section ExactColour.

Local Open Scope Q_scope.

Lemma hex_to_hsl_range_bytes (c : string) (r g b : Z) :
  hex_to_rgb c = Some (r, g, b) ->
  (0 <= r <= 255)%Z -> (0 <= g <= 255)%Z -> (0 <= b <= 255)%Z ->
  exists h s l : Q,
    hex_to_hsl c = Some (h, s, l) /\ 0 <= h < 360 /\ 0 <= s <= 100 /\ 0 <= l <= 100.
Proof.
  intros E Hr Hg Hb. unfold hex_to_hsl. rewrite E. cbn [bind].
  apply inject_byte in Hr, Hg, Hb.
  change (fquot (fl r) (fl 255)) with (inject_Z r * (1 # 255)).
  change (fquot (fl g) (fl 255)) with (inject_Z g * (1 # 255)).
  change (fquot (fl b) (fl 255)) with (inject_Z b * (1 # 255)).
  set (x := inject_Z r * _) in *. set (y := inject_Z g * _) in *.
  set (z := inject_Z b * _) in *.
  clearbody x y z. exact_ops. exact_literals.
  exact_cases; cbn [bind]; try (exfalso; lra).
  all: eexists _, _, _; (split; [reflexivity|]).
  all: exact_literals.
  all: split; [|split; [first [lra | apply ratio_percent; lra] | lra]].
  all: try lra.
  all: name_quotient; lra.
Qed.



Lemma channels_trunc (v : Q * Q * Q) (x y z : Q) (r g b : Z) :
  x * 255 == inject_Z r -> y * 255 == inject_Z g -> z * 255 == inject_Z b ->
  (let '(r', g', b') := v in r' == x /\ g' == y /\ b' == z) ->
  (let '(r', g', b') := v in
   Some (rgb_to_hex (Qtrunc (r' * 255), Qtrunc (g' * 255), Qtrunc (b' * 255))))
  = Some (rgb_to_hex (r, g, b)).
Proof.
  destruct v as [[r' g'] b']. intros Ex Ey Ez (Er & Eg & Eb).
  assert (T : forall c' c n, c' == c -> c * 255 == inject_Z n -> Qtrunc (c' * 255) = n).
  { intros c' c n E1 E2. rewrite (Qtrunc_comp (c' * 255) (inject_Z n)) by lra.
    unfold Qtrunc. rewrite Qfloor_Z, Qceiling_Z. now destruct (Qle_bool 0 (inject_Z n)). }
  now rewrite (T _ _ _ Er Ex), (T _ _ _ Eg Ey), (T _ _ _ Eb Ez).
Qed.

(** Without rounding, the way to hue, saturation and lightness and back
    returns the three bytes it started from. *)
Lemma hsl_round_trip_bytes (c : string) (r g b : Z) :
  hex_to_rgb c = Some (r, g, b) ->
  (0 <= r <= 255)%Z -> (0 <= g <= 255)%Z -> (0 <= b <= 255)%Z ->
  exists h s l : Q,
    hex_to_hsl c = Some (h, s, l)
    /\ hsl_to_hex h s l = Some (rgb_to_hex (r, g, b)).
Proof.
  intros E Hr Hg Hb. unfold hex_to_hsl. rewrite E. cbn [bind].
  apply inject_byte in Hr, Hg, Hb.
  change (fquot (fl r) (fl 255)) with (inject_Z r * (1 # 255)).
  change (fquot (fl g) (fl 255)) with (inject_Z g * (1 # 255)).
  change (fquot (fl b) (fl 255)) with (inject_Z b * (1 # 255)).
  set (x := inject_Z r * _) in *. set (y := inject_Z g * _) in *.
  set (z := inject_Z b * _) in *.
  assert (Ex : x * 255 == inject_Z r) by (subst x; field).
  assert (Ey : y * 255 == inject_Z g) by (subst y; field).
  assert (Ez : z * 255 == inject_Z b) by (subst z; field).
  clearbody x y z. exact_ops. exact_literals.
  exact_cases; cbn [bind]; try (exfalso; lra).
  all: eexists _, _, _; (split; [reflexivity|]).
  all: rewrite hsl_to_hex_exact; apply (channels_trunc _ x y z); try assumption.
  all: clear Ex Ey Ez E.
  all: cbv [hsl_channels]; exact_ops; exact_literals.
  all: repeat name_quotient; quotient_product.
  all: exact_cases; try (exfalso; lra).
  all: repeat split; try lra.
  all: cbv [hue2rgb]; exact_ops; exact_literals.
  all: name_floor; exact_literals.
  all: exact_cases; try (exfalso; lra).
  all: try lra.
  all: nra.
Qed.


Lemma clamp_saturates (l delta : Q) :
  0 <= l <= 100 ->
  (100 <= delta -> clamp (fadd l delta) == 100)
  /\ (delta <= -100 -> clamp (fadd l delta) == 0).
Proof.
  intros Hl. exact_ops. exact_literals. split; intros Hd; exact_cases; lra.
Qed.


Lemma hue2rgb_comp (p p' q q' t : Q) :
  p == p' -> q == q' -> hue2rgb p q t == hue2rgb p' q' t.
Proof.
  intros Hp Hq. unfold hue2rgb. exact_ops. exact_literals.
  set (u := t - inject_Z (Qfloor t)). clearbody u.
  exact_cases; rewrite ?Hp, ?Hq; reflexivity.
Qed.

Lemma hsl_channels_comp (h s l l' : Q) :
  l == l' ->
  let '(r, g, b) := hsl_channels h s l in
  let '(r', g', b') := hsl_channels h s l' in
  r == r' /\ g == g' /\ b == b'.
Proof.
  intros El. unfold hsl_channels.
  set (q := if fltb (fquot l _) _ then _ else _).
  set (q' := if fltb (fquot l' _) _ then _ else _).
  assert (Eq : q == q').
  { subst q q'. exact_ops. exact_literals.
    exact_cases; try (exfalso; lra); rewrite El; reflexivity. }
  assert (Ep : fsub (fmul (fl 2) (fquot l (fl 100))) q
               == fsub (fmul (fl 2) (fquot l' (fl 100))) q').
  { exact_ops. rewrite El, Eq. reflexivity. }
  set (p := fsub _ q) in *. set (p' := fsub _ q') in *. clearbody p p' q q'.
  destruct (feqb _ _).
  - exact_ops. rewrite El. repeat split; reflexivity.
  - repeat split; now apply hue2rgb_comp.
Qed.

(** Equal lightnesses print the same colour, whatever fractions stand for
    them. *)
Lemma hsl_to_hex_comp (h s l l' : Q) :
  l == l' -> hsl_to_hex h s l = hsl_to_hex h s l'.
Proof.
  intros El. pose proof (hsl_channels_comp h s l l' El) as C.
  rewrite !hsl_to_hex_exact.
  destruct (hsl_channels h s l) as [[r g] b].
  destruct (hsl_channels h s l') as [[r' g'] b'].
  destruct C as (Er & Eg & Eb).
  rewrite (Qtrunc_comp (r * 255) (r' * 255)) by (rewrite Er; reflexivity).
  rewrite (Qtrunc_comp (g * 255) (g' * 255)) by (rewrite Eg; reflexivity).
  rewrite (Qtrunc_comp (b * 255) (b' * 255)) by (rewrite Eb; reflexivity).
  reflexivity.
Qed.


Variable gamma : Q -> Q.
Hypothesis gamma_nonneg : forall x, 0 < x -> 0 <= gamma x.
Hypothesis gamma_le_one : forall x, 0 < x <= 1 -> gamma x <= 1.

Lemma channel_unit (c : Q) : 0 <= c <= 1 -> 0 <= channel gamma c <= 1.
Proof.
  intros Hc. split; [apply channel_nonneg; [exact gamma_nonneg | lra]|].
  unfold channel. exact_ops. exact_literals. exact_cases.
  - lra.
  - apply gamma_le_one. lra.
Qed.

Lemma luminance_unit (r g b : Z) :
  (0 <= r <= 255)%Z -> (0 <= g <= 255)%Z -> (0 <= b <= 255)%Z ->
  0 <= luminance gamma (r, g, b) <= 1.
Proof.
  intros Hr Hg Hb. unfold luminance. exact_ops. exact_literals.
  apply inject_byte in Hr, Hg, Hb.
  pose proof (channel_unit (inject_Z r * (1 # 255)) Hr) as Cr.
  pose proof (channel_unit (inject_Z g * (1 # 255)) Hg) as Cg.
  pose proof (channel_unit (inject_Z b * (1 # 255)) Hb) as Cb.
  set (x := channel gamma (inject_Z r * _)) in *.
  set (y := channel gamma (inject_Z g * _)) in *.
  set (z := channel gamma (inject_Z b * _)) in *.
  clearbody x y z. lra.
Qed.

Lemma ratio_bounds (a b : Q) :
  0 <= b -> b <= a -> a <= 1 ->
  1 <= (a + (5 # 100)) / (b + (5 # 100)) <= 21.
Proof.
  intros Hb Hab Ha. split.
  - apply Qle_shift_div_l; lra.
  - apply Qle_shift_div_r; lra.
Qed.

Lemma Qdiv_cross (a b c d : Q) :
  0 < b -> 0 < d -> a * d == c * b -> a / b == c / d.
Proof. intros Hb Hd E. field_simplify_eq; [lra | split; lra]. Qed.

Lemma contrast_ratio_bytes (c1 c2 : string) (r1 g1 b1 r2 g2 b2 : Z) :
  hex_to_rgb c1 = Some (r1, g1, b1) ->
  (0 <= r1 <= 255)%Z -> (0 <= g1 <= 255)%Z -> (0 <= b1 <= 255)%Z ->
  hex_to_rgb c2 = Some (r2, g2, b2) ->
  (0 <= r2 <= 255)%Z -> (0 <= g2 <= 255)%Z -> (0 <= b2 <= 255)%Z ->
  exists x y,
    contrast_ratio gamma c1 c2 = Some x
    /\ contrast_ratio gamma c2 c1 = Some y
    /\ x == y /\ 1 <= x <= 21
    /\ ((r1, g1, b1) = (r2, g2, b2) -> x == 1).
Proof.
  intros E1 R1 G1 B1 E2 R2 G2 B2. unfold contrast_ratio. rewrite E1, E2. cbn [bind].
  pose proof (luminance_unit _ _ _ R1 G1 B1) as L1.
  pose proof (luminance_unit _ _ _ R2 G2 B2) as L2.
  assert (Same : (r1, g1, b1) = (r2, g2, b2) ->
                 luminance gamma (r1, g1, b1) == luminance gamma (r2, g2, b2)).
  { intros ->. reflexivity. }
  set (l1 := luminance gamma (r1, g1, b1)) in *.
  set (l2 := luminance gamma (r2, g2, b2)) in *. clearbody l1 l2.
  exact_ops. exact_literals.
  exact_cases; try (exfalso; lra).
  all: eexists _, _; (split; [reflexivity|]); (split; [reflexivity|]).
  all: split; [apply Qdiv_cross; nra|].
  all: split; [apply ratio_bounds; lra|].
  all: intros S; specialize (Same S).
  all: match goal with
       | |- ?a / ?b == 1 =>
           setoid_replace 1 with (b / b) by (field; lra); apply Qdiv_cross; nra
       end.
Qed.



(** What an exhausted search returns in exact arithmetic is white or black. *)
Lemma ensure_contrast_meets_or_extreme (fg bg : string) (r : Q) (d : string)
    (out : string) :
  color_pattern fg = true ->
  ensure_contrast gamma fg bg r d = Some out ->
  meets gamma out bg r \/ out = "#ffffff"%string \/ out = "#000000"%string.
Proof.
  intros Vf E.
  destruct (hex_to_rgb_valid fg Vf) as (fr & fg_ & fb & Ef & Fr & Fg & Fb).
  destruct (hex_to_hsl_bytes _ _ _ _ Ef Fr Fg Fb) as (h0 & s0 & l0 & Eh0 & _ & Hl0).
  destruct (ensure_contrast_result gamma _ _ _ _ _ E)
    as [(Hm & ->)|(_ & h & s & l & bg_rgb & Eh & Eb & [(Hm & _)|(_ & En)])];
    [now left | now left |].
  right. rewrite Eh in Eh0. inversion Eh0; subst h0 s0 l0.
  unfold search_step in En.
  set (lighter := go_lighter d (luminance gamma bg_rgb)) in *.
  rewrite (hsl_to_hex_extreme lighter h s _ (lightness_extreme lighter l Hl0)) in En.
  inversion En. destruct lighter; auto.
Qed.


End ExactColour.

Lemma square_le_one (x : Q) : (0 < x <= 1)%Q -> (x * x <= 1)%Q.
Proof. intros Hx. nra. Qed.









(** ** Dictionaries *)

Section DictGet.

Context {A : Type}.

Lemma get_set (k k' : string) (v : A) (d : Dict.t A) :
  Dict.get k (Dict.set k' v d) = if String.eqb k' k then Some v else Dict.get k d.
Proof.
  induction d as [|[k0 v0] d IH]; cbn [Dict.set Dict.get]; [reflexivity|].
  destruct (String.eqb_spec k0 k') as [->|N]; cbn [Dict.get].
  - destruct (String.eqb k' k); reflexivity.
  - rewrite IH. destruct (String.eqb_spec k0 k) as [->|N0]; [|reflexivity].
    destruct (String.eqb_spec k' k) as [->|]; [now elim N | reflexivity].
Qed.

Lemma get_app (k : string) (l1 l2 : Dict.t A) :
  Dict.get k (l1 ++ l2)%list
  = match Dict.get k l1 with Some v => Some v | None => Dict.get k l2 end.
Proof.
  induction l1 as [|[k0 v0] l1 IH]; cbn [app Dict.get]; [reflexivity|].
  destruct (String.eqb k0 k); [reflexivity | exact IH].
Qed.

(** After a merge the last item with the key decides. *)
Lemma get_update (k : string) (items : list (string * A)) :
  forall d : Dict.t A,
    Dict.get k (Dict.update d items)
    = match Dict.get k (rev items) with Some v => Some v | None => Dict.get k d end.
Proof.
  unfold Dict.update. induction items as [|[k0 v0] items IH]; intros d; [reflexivity|].
  cbn [fold_left fst snd rev]. rewrite IH, get_app, get_set. cbn [Dict.get].
  destruct (Dict.get k (rev items)); [reflexivity|].
  destruct (String.eqb k0 k); reflexivity.
Qed.

Lemma get_In (k : string) (v : A) (l : Dict.t A) :
  NoDup (Dict.keys l) -> (Dict.get k l = Some v <-> In (k, v) l).
Proof.
  induction l as [|[k0 v0] l IH]; intros N; cbn [Dict.get In].
  - split; [discriminate | tauto].
  - inversion N as [|? ? Hn N']; subst. specialize (IH N').
    destruct (String.eqb_spec k0 k) as [->|Hne].
    + split.
      * intros E. inversion E. now left.
      * intros [E|E]; [now inversion E|].
        elim Hn. unfold Dict.keys. now apply (in_map fst) in E.
    + rewrite IH. split; [tauto|]. intros [E|E]; [inversion E; now elim Hne | exact E].
Qed.

Lemma get_None (k : string) (l : Dict.t A) :
  Dict.get k l = None <-> ~ In k (Dict.keys l).
Proof.
  induction l as [|[k0 v0] l IH]; cbn [Dict.get Dict.keys map fst In]; [tauto|].
  destruct (String.eqb_spec k0 k) as [->|Hne].
  - split; [discriminate | tauto].
  - fold (Dict.keys l). rewrite IH. tauto.
Qed.

Lemma get_rev (k : string) (l : Dict.t A) :
  NoDup (Dict.keys l) -> Dict.get k (rev l) = Dict.get k l.
Proof.
  intros N.
  assert (N' : NoDup (Dict.keys (rev l))).
  { unfold Dict.keys. rewrite map_rev. now apply NoDup_rev. }
  destruct (Dict.get k l) as [v|] eqn:E.
  - apply (get_In _ _ _ N'). rewrite <- in_rev. now apply (get_In _ _ _ N).
  - apply get_None. apply get_None in E. unfold Dict.keys in *.
    rewrite map_rev, <- in_rev. exact E.
Qed.

Lemma set_fresh (k : string) (v : A) (d : Dict.t A) :
  ~ In k (Dict.keys d) -> Dict.set k v d = (d ++ [(k, v)])%list.
Proof.
  induction d as [|[k0 v0] d IH]; cbn [Dict.set Dict.keys map fst In app]; [reflexivity|].
  intros Hn. destruct (String.eqb_spec k0 k) as [->|Hne]; [tauto|].
  rewrite IH; [reflexivity | tauto].
Qed.

Lemma update_fresh (l : list (string * A)) :
  forall d : Dict.t A,
    NoDup (Dict.keys l) ->
    (forall k, In k (Dict.keys l) -> ~ In k (Dict.keys d)) ->
    Dict.update d l = (d ++ l)%list.
Proof.
  unfold Dict.update. induction l as [|[k v] l IH]; intros d N Hd.
  - cbn. now rewrite app_nil_r.
  - cbn [fold_left fst snd]. inversion N as [|? ? Hn N']; subst.
    rewrite set_fresh by (apply Hd; now left).
    rewrite IH; [now rewrite <- app_assoc | exact N' |].
    intros k0 Hk0. unfold Dict.keys. rewrite map_app, in_app_iff. cbn [map fst In].
    intros [H|[H|[]]].
    + apply (Hd k0); [now right | exact H].
    + subst. now elim Hn.
Qed.

(** A dictionary display whose keys are distinct is the list of its items. *)
Lemma of_items_distinct (l : list (string * A)) :
  NoDup (Dict.keys l) -> Dict.of_items l = l.
Proof. intros N. unfold Dict.of_items. now rewrite update_fresh. Qed.

Lemma get_filter_key (f : string -> bool) (k : string) (d : Dict.t A) :
  Dict.get k (filter (fun kv => f (fst kv)) d)
  = if f k then Dict.get k d else None.
Proof.
  induction d as [|[k0 v0] d IH]; cbn [filter Dict.get fst]; [now destruct (f k)|].
  destruct (f k0) eqn:F0; cbn [Dict.get]; rewrite IH.
  - destruct (String.eqb_spec k0 k) as [->|]; [now rewrite F0 | reflexivity].
  - destruct (String.eqb_spec k0 k) as [->|]; [now rewrite F0 | reflexivity].
Qed.

Lemma keys_filter_key (f : string -> bool) (d : Dict.t A) :
  Dict.keys (filter (fun kv => f (fst kv)) d) = filter f (Dict.keys d).
Proof.
  induction d as [|[k0 v0] d IH]; cbn [filter Dict.keys map fst]; [reflexivity|].
  destruct (f k0); cbn [map fst]; fold (Dict.keys d); now rewrite <- IH.
Qed.

Lemma map_unprefixed (d : Dict.t A) :
  map (fun kv => ("" ++ fst kv, snd kv)) d = d.
Proof. induction d as [|[k v] d IH]; cbn [map]; [reflexivity | now rewrite IH]. Qed.

End DictGet.

(** ** The colour table of a variant *)

(** X12.  The colour table of a variant other than 'classic' is the classic
    table with the variant's overrides laid over it: a key of the overrides
    that does not start with a dollar sign has the override's value, every
    other key has the value of the classic table.  A variant the palette has
    no overrides for has the classic value at every key. *)
Theorem get_variant_colors_overrides (palette : json) (variant : string)
    (variants overrides colors : dict) :
  variant <> "classic" ->
  Json.get_or palette "variants" (JDict []) = Some (JDict variants) ->
  Json.get_or (JDict variants) variant (JDict []) = Some (JDict overrides) ->
  NoDup (Dict.keys overrides) ->
  get_variant_colors palette variant = Some colors ->
  exists classic,
    get_variant_colors palette "classic" = Some classic
    /\ forall k,
         Dict.get k colors
         = match Dict.get k overrides with
           | Some v => if Py.startswith "$" k then Dict.get k classic else Some v
           | None => Dict.get k classic
           end.
Proof.
  intros Hne Hvs Hov N E. unfold get_variant_colors in *.
  bind_inv E as base_ Ebase. rewrite Ebase. cbn [bind].
  bind_inv E as background Ebackground. rewrite Ebackground. cbn [bind].
  bind_inv E as foreground Eforeground. rewrite Eforeground. cbn [bind].
  bind_inv E as border Eborder. rewrite Eborder. cbn [bind].
  bind_inv E as syntax Esyntax. rewrite Esyntax. cbn [bind].
  bind_inv E as terminal Eterminal. rewrite Eterminal. cbn [bind].
  apply String.eqb_neq in Hne. rewrite Hne in E. cbn [negb] in E.
  rewrite Hvs in E. cbn [bind] in E. rewrite Hov in E. cbn [bind] in E.
  unfold prefixed in E. cbn [Json.items bind orb] in E.
  rewrite map_unprefixed in E.
  set (f := fun k => negb (Py.startswith "$" k)).
  change (filter _ overrides) with (filter (fun kv => f (fst kv)) overrides) in E.
  assert (N' : NoDup (Dict.keys (filter (fun kv => f (fst kv)) overrides))).
  { rewrite keys_filter_key. now apply NoDup_filter. }
  rewrite (of_items_distinct _ N') in E. inversion E; subst colors; clear E.
  eexists. split; [reflexivity|]. intros k.
  rewrite get_update, (get_rev _ _ N'), get_filter_key. unfold f.
  destruct (Py.startswith "$" k); cbn [negb].
  - now destruct (Dict.get k overrides).
  - reflexivity.
Qed.

Lemma get_variant_colors_overrides_witness :
  exists colors,
    get_variant_colors sample_palette "soft" = Some colors
    /\ exists classic,
         get_variant_colors sample_palette "classic" = Some classic
         /\ forall k,
              Dict.get k colors
              = match Dict.get k [ ("syntax.type", JStr "#ff6b7a");
                                   ("background.extra", JStr "#2e2a3f") ] with
                | Some v => if Py.startswith "$" k then Dict.get k classic else Some v
                | None => Dict.get k classic
                end.
Proof.
  eexists. split.
  - vm_compute. reflexivity.
  - apply (get_variant_colors_overrides sample_palette "soft"
             [ ("soft", JDict [ ("syntax.type", JStr "#ff6b7a");
                                ("background.extra", JStr "#2e2a3f") ]) ]).
    + discriminate.
    + reflexivity.
    + reflexivity.
    + repeat constructor; simpl; intuition discriminate.
    + vm_compute. reflexivity.
Defined.

(** ** Resolution of whole documents *)

Section JsonInduction.

Variable P : json -> Prop.
Hypothesis P_null : P JNull.
Hypothesis P_bool : forall b, P (JBool b).
Hypothesis P_int : forall n, P (JInt n).
Hypothesis P_float : forall x, P (JFloat x).
Hypothesis P_str : forall s, P (JStr s).
Hypothesis P_list : forall l, Forall P l -> P (JList l).
Hypothesis P_dict : forall d, Forall (fun kv => P (snd kv)) d -> P (JDict d).

Lemma json_nested_ind : forall v, P v.
Proof.
  fix IH 1. intros [| b | n | x | s | l | d].
  - exact P_null.
  - apply P_bool.
  - apply P_int.
  - apply P_float.
  - apply P_str.
  - apply P_list. induction l as [|v l IHl]; constructor; [apply IH | exact IHl].
  - apply P_dict. induction d as [|[k v] d IHd]; constructor; [apply IH | exact IHd].
Qed.

End JsonInduction.

Lemma distinct_NoDup (l : list string) : distinct l = true -> NoDup l.
Proof.
  induction l as [|k l IH]; intros D; constructor.
  - cbn [distinct] in D. apply andb_prop in D as [D _].
    apply negb_true_iff in D. intros Hin.
    assert (X : existsb (String.eqb k) l = true).
    { apply existsb_exists. exists k. split; [exact Hin | apply String.eqb_refl]. }
    rewrite X in D. discriminate D.
  - cbn [distinct] in D. apply andb_prop in D as [_ D]. now apply IH.
Qed.

(** X13.  [resolve_value] returns a document without markers as it is,
    whatever the colour table holds: every string, number, list and
    dictionary of it, at any depth. *)
Theorem resolve_value_plain (colors : dict) (v : json) :
  plain_document v = true -> resolve_value v colors = Some v.
Proof.
  induction v as [| b | n | x | s | l IHl | d IHd] using json_nested_ind;
    intros Hp; try reflexivity.
  - cbn [plain_document] in Hp. apply negb_true_iff in Hp.
    cbn [resolve_value]. now rewrite Hp.
  - cbn [resolve_value plain_document] in *.
    match goal with
    | |- bind ?m _ = _ => assert (E : m = Some l)
    end.
    { induction IHl as [|x l Hx Hl IH]; [reflexivity|].
      apply andb_prop in Hp as [Hp1 Hp2].
      rewrite (Hx Hp1). cbn [bind]. rewrite (IH Hp2). reflexivity. }
    rewrite E. reflexivity.
  - cbn [resolve_value plain_document] in *.
    apply andb_prop in Hp as [Hk Hp].
    match goal with
    | |- bind ?m _ = _ => assert (E : m = Some d)
    end.
    { clear Hk. induction IHd as [|[k x] d Hx Hd IH]; [reflexivity|].
      apply andb_prop in Hp as [Hp1 Hp2]. cbn [snd] in Hx.
      rewrite (Hx Hp1). cbn [bind]. rewrite (IH Hp2). reflexivity. }
    rewrite E. cbn [bind]. rewrite of_items_distinct; [reflexivity|].
    now apply distinct_NoDup.
Qed.

Lemma resolve_value_plain_witness :
  resolve_value
    (JDict [ ("text", JStr "#ffffff");
             ("players", JList [ JDict [ ("cursor", JStr "{x}") ]; JInt 1; JNull ]) ])
    [("n", JInt 1)]
  = Some (JDict [ ("text", JStr "#ffffff");
                  ("players", JList [ JDict [ ("cursor", JStr "{x}") ]; JInt 1; JNull ]) ]).
Proof. apply resolve_value_plain. reflexivity. Defined.



(** ** Syntax tokens and players *)

Section SpecialTokens.

Variable colors : dict.

Lemma assign_special_other (key : string) (special : dict) :
  forall syntax0 syntax,
    assign_special colors special syntax0 = Some syntax ->
    ~ In key (Dict.keys special) ->
    Dict.get key syntax = Dict.get key syntax0.
Proof.
  induction special as [|[k0 tpl0] special IH]; intros syntax0 syntax E Hn.
  - inversion E. reflexivity.
  - cbn [assign_special] in E. cbn [Dict.keys map fst In] in Hn.
    destruct (Py.startswith "$" k0).
    + apply (IH _ _ E). tauto.
    + bind_inv E as t Et. bind_inv E as c Ec.
      rewrite (IH _ _ E) by tauto. rewrite get_set.
      destruct (String.eqb_spec k0 key) as [->|]; [tauto | reflexivity].
Qed.

Lemma assign_special_get (key : string) (template : json) (special : dict) :
  forall syntax0 syntax,
    assign_special colors special syntax0 = Some syntax ->
    NoDup (Dict.keys special) ->
    Dict.get key special = Some template ->
    Py.startswith "$" key = false ->
    exists t c,
      template = JStr t
      /\ resolve_template t colors = Some c
      /\ Dict.get key syntax = Some (JDict [("color", JStr c)]).
Proof.
  induction special as [|[k0 tpl0] special IH]; intros syntax0 syntax E N G Hk;
    [discriminate G|].
  cbn [assign_special] in E. cbn [Dict.get] in G.
  inversion N as [|? ? Hn N']; subst.
  destruct (String.eqb_spec k0 key) as [->|Hne].
  - inversion G; subst tpl0. rewrite Hk in E.
    bind_inv E as t Et. bind_inv E as c Ec.
    exists t, c. split; [now destruct template; inversion Et|]. split; [exact Ec|].
    rewrite (assign_special_other key _ _ _ E Hn), get_set, String.eqb_refl.
    reflexivity.
  - destruct (Py.startswith "$" k0).
    + exact (IH _ _ E N' G Hk).
    + bind_inv E as t Et. bind_inv E as c Ec. exact (IH _ _ E N' G Hk).
Qed.

End SpecialTokens.



Lemma color_pattern_selection (c : string) :
  color_pattern c = true ->
  (color_pattern (c ++ "40") = true <-> String.length c = 7%nat).
Proof.
  intros V. destruct c as [|a s]; [discriminate|].
  pose proof (color_pattern_hash a s V) as ->. cbn [color_pattern] in V.
  destruct (hex_run 6 s) as [rest|] eqn:R; [|discriminate].
  apply hex_run_succ in R as (a1 & s1 & -> & H1 & R).
  apply hex_run_succ in R as (a2 & s2 & -> & H2 & R).
  apply hex_run_succ in R as (a3 & s3 & -> & H3 & R).
  apply hex_run_succ in R as (a4 & s4 & -> & H4 & R).
  apply hex_run_succ in R as (a5 & s5 & -> & H5 & R).
  apply hex_run_succ in R as (a6 & s6 & -> & H6 & R).
  cbn [hex_run] in R. inversion R; subst s6; clear R.
  cbn [append color_pattern]. cbn [hex_run]. rewrite H1, H2, H3, H4, H5, H6.
  cbn [String.length].
  destruct rest as [|b1 [|b2 rest]].
  - split; reflexivity.
  - split; [|intros L; inversion L]. intros P. exfalso.
    cbn [hex_run at_end] in V. cbn [append hex_run at_end] in P.
    destruct (Py.is_hex_digit b1) eqn:D1.
    + destruct (Ascii.eqb_spec b1 "010") as [->|]; [discriminate D1 | discriminate V].
    + discriminate P.
  - split; [|intros L; inversion L]. intros P. exfalso.
    cbn [hex_run at_end] in V. cbn [append hex_run at_end] in P.
    destruct (Py.is_hex_digit b1); [|discriminate V].
    destruct (Py.is_hex_digit b2); [|discriminate V].
    rewrite orb_false_r in V, P.
    destruct rest as [|b3 [|b4 rest]]; try discriminate V; discriminate P.
Qed.

(** X16.  For a palette whose players are well-formed colours,
    [generate_players] gives one player per colour, with the colour as cursor
    and background and the colour followed by [40] as selection.  That
    selection is a well-formed colour exactly when the player colour has
    seven characters: a player colour that carries an alpha suffix already
    gets a selection the colour check rejects. *)
Theorem generate_players_selection (repr : json -> string) (palette : json)
    (cs : list string) :
  Json.subscript palette "players" = Some (JList (map JStr cs)) ->
  Forall (fun c => color_pattern c = true) cs ->
  exists ps,
    generate_players repr palette = Some ps
    /\ Forall2 (fun c p =>
                  p = JDict [ ("cursor", JStr c); ("background", JStr c);
                              ("selection", JStr (c ++ "40")) ]
                  /\ (color_pattern (c ++ "40") = true <-> String.length c = 7%nat))
         cs ps.
Proof.
  intros E V. unfold generate_players. rewrite E. cbn [bind Json.iter].
  eexists. split; [reflexivity|]. clear E.
  induction V as [|c cs Vc V IH]; cbn [map]; [constructor|].
  constructor; [|exact IH].
  split; [reflexivity | now apply color_pattern_selection].
Qed.

Lemma generate_players_selection_witness :
  exists ps,
    generate_players (fun _ => "") sample_palette = Some ps
    /\ Forall2 (fun c p =>
                  p = JDict [ ("cursor", JStr c); ("background", JStr c);
                              ("selection", JStr (c ++ "40")) ]
                  /\ (color_pattern (c ++ "40") = true <-> String.length c = 7%nat))
         ["#ff7edb"; "#36f9f6"] ps.
Proof.
  apply (generate_players_selection (fun _ => "") sample_palette ["#ff7edb"; "#36f9f6"]).
  - reflexivity.
  - repeat constructor.
Defined.

(** ** Generated artifacts under the checks *)

Section Generated.

Variable repr : json -> string.

Lemma generate_variant_players (base palette : json) (key : string) (v : json) :
  generate_variant repr base palette key = Some v ->
  exists name style players,
    v = JDict [("name", name); ("appearance", JStr "dark"); ("style", JDict style)]
    /\ generate_players repr palette = Some players
    /\ Dict.get "players" style = Some (JList players).
Proof.
  unfold generate_variant. intros E.
  bind_inv E as colors Ecolors.
  bind_inv E as config Econfig.
  bind_inv E as ui Eui.
  bind_inv E as terminal Eterminal.
  bind_inv E as syntax Esyntax.
  bind_inv E as c1 Ec1. bind_inv E as c2 Ec2. bind_inv E as c3 Ec3.
  bind_inv E as c4 Ec4. bind_inv E as c5 Ec5. bind_inv E as c6 Ec6.
  bind_inv E as c7 Ec7. bind_inv E as c8 Ec8.
  bind_inv E as alpha Ealpha.
  bind_inv E as ui_items Eitems.
  bind_inv E as players Eplayers.
  bind_inv E as name Ename.
  inversion E; subst; clear E.
  eexists _, _, players. split; [reflexivity|]. split; [exact Eplayers|].
  unfold Dict.of_items at 1. rewrite get_update. cbn [rev app].
  rewrite !rev_app_distr. reflexivity.
Qed.

Lemma generate_theme_shape (base palette art : json) :
  generate_theme repr base palette = Some art ->
  exists schema name author v1 v2 v3,
    art = JDict [ ("$schema", schema); ("name", name); ("author", author);
                  ("themes", JList [v1; v2; v3]) ]
    /\ generate_variant repr base palette "classic" = Some v1
    /\ generate_variant repr base palette "soft" = Some v2
    /\ generate_variant repr base palette "high_contrast" = Some v3.
Proof.
  unfold generate_theme. intros E.
  bind_inv E as schema Eschema. bind_inv E as name Ename.
  bind_inv E as author Eauthor. bind_inv E as themes Ethemes.
  inversion E; subst; clear E.
  unfold VARIANT_KEYS in Ethemes. cbn [mapM] in Ethemes.
  bind_inv Ethemes as v1 E1. bind_inv Ethemes as r1 Er1.
  bind_inv Er1 as v2 E2. bind_inv Er1 as r2 Er2.
  bind_inv Er2 as v3 E3. inversion Er2; subst. inversion Er1; subst.
  inversion Ethemes; subst.
  exists schema, name, author, v1, v2, v3. repeat split; assumption.
Qed.

End Generated.



Lemma set_diff_self (l : list string) : set_diff l l = [].
Proof.
  unfold set_diff.
  assert (G : forall l', incl l' l ->
                filter (fun k => negb (existsb (String.eqb k) l)) l' = []).
  { induction l' as [|k l' IH]; intros Hi; [reflexivity|]. cbn [filter].
    assert (X : existsb (String.eqb k) l = true).
    { apply existsb_exists. exists k. split; [apply Hi; now left | apply String.eqb_refl]. }
    rewrite X. cbn [negb]. apply IH. intros x Hx. apply Hi. now right. }
  apply G, incl_refl.
Qed.





(** ** The colour check *)

Lemma prefix_refl (s : string) : prefix s s = true.
Proof.
  induction s as [|c s IH]; cbn [prefix]; [reflexivity|].
  destruct (ascii_dec c c) as [_|N]; [exact IH | now elim N].
Qed.

Lemma prefix_app (p s t : string) : prefix p s = true -> prefix p (s ++ t) = true.
Proof.
  revert s. induction p as [|c p IH]; intros s H; [now destruct (s ++ t)|].
  destruct s as [|c' s]; [discriminate|]. cbn [append prefix] in *.
  destruct (ascii_dec c c'); [now apply IH | discriminate].
Qed.

Lemma prefix_trans (p q s : string) :
  prefix p q = true -> prefix q s = true -> prefix p s = true.
Proof.
  revert q s. induction p as [|c p IH]; intros q s H1 H2; [now destruct s|].
  destruct q as [|c1 q]; [discriminate|]. destruct s as [|c2 s]; [discriminate|].
  cbn [prefix] in *.
  destruct (ascii_dec c c1) as [->|]; [|discriminate].
  destruct (ascii_dec c1 c2) as [->|]; [|discriminate].
  destruct (ascii_dec c2 c2) as [_|N]; [now apply (IH q) | now elim N].
Qed.

(** X20.  Every entry [find_colors] reports is a string that starts with a
    hash sign, under a path that extends the path the search started from. *)
Theorem find_colors_found (obj : json) :
  forall path p c,
    In (p, c) (find_colors obj path) ->
    Py.startswith "#" c = true /\ Py.startswith path p = true.
Proof.
  induction obj as [| b | n | x | s | l IHl | d IHd] using json_nested_ind;
    intros path p c Hin; try (now elim Hin).
  - cbn [find_colors] in Hin. destruct (Py.startswith "#" s) eqn:E; [|now elim Hin].
    destruct Hin as [Hin|[]]. inversion Hin; subst. split; [exact E|].
    apply prefix_refl.
  - cbn [find_colors] in Hin. induction IHd as [|[k x] d Hx Hd IH]; [now elim Hin|].
    apply in_app_or in Hin as [Hin|Hin].
    + destruct (Hx _ _ _ Hin) as [Hc Hp]. split; [exact Hc|].
      apply (prefix_trans path (path ++ "." ++ k)); [|exact Hp].
      apply prefix_app, prefix_refl.
    + now apply IH.
Qed.

Lemma find_colors_found_witness :
  Py.startswith "#" "#12" = true /\ Py.startswith "root" "root.a.b" = true.
Proof.
  apply (find_colors_found (JDict [("a", JDict [("b", JStr "#12"); ("c", JStr "x")])])
           "root" "root.a.b" "#12").
  simpl. now left.
Defined.

Lemma filter_nil {A : Type} (f : A -> bool) (l : list A) :
  filter f l = [] <-> forall x, In x l -> f x = false.
Proof.
  induction l as [|a l IH]; cbn [filter In]; [tauto|].
  destruct (f a) eqn:Fa.
  - split; [discriminate|]. intros H. rewrite (H a) in Fa; [discriminate | now left].
  - rewrite IH. split.
    + intros H x [<-|Hx]; auto.
    + intros H x Hx. apply H. now right.
Qed.

(** X21.  The colour check passes exactly when every string [find_colors]
    reports matches the pattern; the cap of ten reported failures never turns
    a failure into a pass. *)
Theorem validate_colors_passes_iff (data : json) :
  forallb ok (validate_colors data) = true
  <-> forall p c, In (p, c) (find_colors data "") -> color_pattern c = true.
Proof.
  unfold validate_colors.
  set (invalid := filter _ (find_colors data "")).
  destruct invalid as [|x rest] eqn:E.
  - split; [|reflexivity]. intros _ p c Hin. subst invalid.
    apply filter_nil with (x := (p, c)) in E; [|exact Hin].
    cbn [snd] in E. now apply negb_false_iff in E.
  - split; [discriminate|]. intros H. exfalso.
    assert (Hx : In x invalid) by (rewrite E; now left).
    subst invalid. apply filter_In in Hx as [Hin Hbad]. destruct x as [p c].
    cbn [snd] in Hbad. rewrite (H p c Hin) in Hbad. discriminate Hbad.
Qed.

(** ** The contrast check *)

Section ContrastProperties.

Context {F : Type} `{PyFloat F}.
Variable gamma : F -> F.
Variable repr : json -> string.
Variable format_1f : F -> string.

Lemma contrast_result_length (t bg color : json) (what : string) (threshold : F)
    (shown : string) (rs : list Result) :
  contrast_result gamma repr format_1f t bg color what threshold shown = Some rs ->
  (List.length rs <= 1)%nat.
Proof.
  unfold contrast_result. destruct (py_bool bg && py_bool color).
  - intros E. bind_inv E as b Eb. bind_inv E as c Ec. bind_inv E as ratio Er.
    bind_inv E as name En. inversion E. simpl. lia.
  - intros E. inversion E. simpl. lia.
Qed.

Lemma contrast_result_no_background (t color : json) (what : string)
    (threshold : F) (shown : string) :
  contrast_result gamma repr format_1f t JNull color what threshold shown = Some [].
Proof. reflexivity. Qed.

(** X22.  The contrast check gives at most two results for each variant
    of the artifact: one for the text, one for the comments. *)
Theorem validate_contrast_at_most_two (data : json) (results : list Result) :
  validate_contrast gamma repr format_1f data = Some results ->
  exists themes,
    (t <- Json.get_or data "themes" (JList []) ;; Json.iter t) = Some themes
    /\ (List.length results <= 2 * List.length themes)%nat.
Proof.
  unfold validate_contrast. intros E.
  bind_inv E as themes0 E0. rewrite E0. cbn [bind].
  bind_inv E as themes E1. rewrite E1.
  bind_inv E as per E2. inversion E; subst results; clear E.
  exists themes. split; [reflexivity|].
  apply mapM_Some in E2. clear E0 E1.
  induction E2 as [|t rs ts rss Et R IH]; [simpl; lia|].
  cbn [List.concat List.length]. rewrite length_app.
  assert (L : (List.length rs <= 2)%nat).
  { bind_inv Et as style Es. bind_inv Et as bg Ebg. bind_inv Et as fg Efg.
    bind_inv Et as syntax Esy. bind_inv Et as comment Eco.
    bind_inv Et as cc Ecc. bind_inv Et as text Etext. bind_inv Et as comments Ecomm.
    inversion Et; subst rs. rewrite length_app.
    apply contrast_result_length in Etext, Ecomm. lia. }
  lia.
Qed.

(** X23.  A variant whose style has neither [background] nor
    [editor.background] is not checked at all: with only such variants the
    contrast check returns no result, so no failure, whatever the foreground
    and the comment colour are. *)
Theorem validate_contrast_no_background (d : dict) (ts : list json) :
  Dict.get "themes" d = Some (JList ts) ->
  (forall t, In t ts ->
     exists style syntax,
       Json.subscript t "style" = Some (JDict style)
       /\ Dict.get "background" style = None
       /\ Dict.get "editor.background" style = None
       /\ Json.get_or (JDict style) "syntax" (JDict []) = Some (JDict syntax)) ->
  validate_contrast gamma repr format_1f (JDict d) = Some [].
Proof.
  intros Hd Hts. unfold validate_contrast. cbn [Json.get_or]. rewrite Hd.
  cbn [bind Json.iter].
  match goal with
  | |- bind (mapM ?f ts) _ = _ =>
      assert (E : mapM f ts = Some (map (fun _ => []) ts))
  end.
  { clear Hd. induction ts as [|t ts IH]; [reflexivity|].
    cbn [mapM map]. rewrite IH by (intros; apply Hts; now right).
    destruct (Hts t (or_introl eq_refl)) as (style & syntax & Es & B1 & B2 & Esy).
    rewrite Es. cbn [bind Json.get_or] in *. rewrite B1, B2. cbn [bind].
    inversion Esy as [Esy']. rewrite Esy'. cbn [bind Json.get_or].
    destruct (Dict.get "comment" syntax) as [[| | | | | |c]|]; reflexivity. }
  rewrite E. cbn [bind]. f_equal.
  clear. induction ts as [|t ts IH]; [reflexivity | exact IH].
Qed.

End ContrastProperties.

Lemma validate_contrast_at_most_two_witness :
  exists themes,
    (t <- Json.get_or
            (JDict [("themes",
                     JList [JDict [("name", JStr "Synthwave84");
                                   ("style", JDict [("background", JStr "#000000");
                                                    ("foreground", JStr "#ffffff")])]])])
            "themes" (JList []) ;; Json.iter t) = Some themes
    /\ (List.length [success "Synthwave84 text contrast 21.0:1"]
        <= 2 * List.length themes)%nat.
Proof.
  apply (validate_contrast_at_most_two (F:=Q) (fun x => x * x)%Q (fun _ => "")
           (fun _ => "21.0")).
  vm_compute. reflexivity.
Defined.

Lemma validate_contrast_no_background_witness :
  validate_contrast (F:=Q) (fun x => x * x)%Q (fun _ => "") (fun _ => "")
    (JDict [("themes",
             JList [JDict [("name", JStr "Synthwave84");
                           ("style", JDict [("foreground", JStr "#xyz")])]])])
  = Some [].
Proof.
  apply (validate_contrast_no_background (F:=Q) (fun x => x * x)%Q (fun _ => "")
           (fun _ => "")
           [("themes",
             JList [JDict [("name", JStr "Synthwave84");
                           ("style", JDict [("foreground", JStr "#xyz")])]])]
           [JDict [("name", JStr "Synthwave84");
                   ("style", JDict [("foreground", JStr "#xyz")])]]).
  - reflexivity.
  - intros t [<-|[]]. exists [("foreground", JStr "#xyz")], [].
    repeat split.
Defined.

(** ** The commands *)

Lemma first_difference_spec (a : string) :
  forall b i,
    match first_difference i a b with
    | Some j =>
        exists n, j = (i + n)%nat
                  /\ substring 0 n a = substring 0 n b
                  /\ String.get n a <> String.get n b
                  /\ String.get n a <> None /\ String.get n b <> None
    | None => prefix a b = true \/ prefix b a = true
    end.
Proof.
  induction a as [|c a IH]; intros b i.
  - left. now destruct b.
  - destruct b as [|g b]; [now right|]. cbn [first_difference].
    destruct (Ascii.eqb_spec c g) as [->|Hne].
    + specialize (IH b (S i)). destruct (first_difference (S i) a b) as [j|].
      * destruct IH as (n & -> & Hs & Hd & Ha & Hb). exists (S n).
        cbn [substring String.get]. rewrite Hs. repeat split; auto; lia.
      * cbn [prefix]. destruct (ascii_dec g g) as [_|N]; [exact IH | now elim N].
    + exists 0%nat. cbn [substring String.get]. repeat split; try discriminate.
      * lia.
      * intros E. inversion E. now elim Hne.
Qed.

(** X24.  [cmd_check] on the two serialised themes: it returns 0 with the
    one line of success exactly when they are equal.  Otherwise it returns 1,
    and either it reports the first position at which both strings have a
    character and the characters differ, the strings agreeing before it, or it
    reports a length mismatch, one string being a prefix of the other. *)
Theorem cmd_check_compare_spec (current_str generated_str : string) :
  (current_str = generated_str
   /\ cmd_check_compare current_str generated_str = (["OK: Theme matches source"], 0%Z))
  \/ (current_str <> generated_str
      /\ exists i,
           cmd_check_compare current_str generated_str
           = ([ "FAIL: Differs at position " ++ Py.str_nat i;
                "  Run 'make generate' to regenerate" ], 1%Z)
           /\ substring 0 i current_str = substring 0 i generated_str
           /\ String.get i current_str <> String.get i generated_str
           /\ String.get i current_str <> None
           /\ String.get i generated_str <> None)
  \/ (current_str <> generated_str
      /\ cmd_check_compare current_str generated_str = (["FAIL: Length mismatch"], 1%Z)
      /\ (prefix current_str generated_str = true
          \/ prefix generated_str current_str = true)).
Proof.
  unfold cmd_check_compare.
  destruct (String.eqb_spec current_str generated_str) as [->|Hne]; [now left|].
  right. pose proof (first_difference_spec current_str generated_str 0) as S.
  destruct (first_difference 0 current_str generated_str) as [j|].
  - left. split; [exact Hne|]. destruct S as (n & -> & Hs & Hd & Ha & Hb).
    exists n. repeat split; auto.
  - right. repeat split; auto.
Qed.

Lemma existsb_eqb_In (k : string) (l : list string) :
  existsb (String.eqb k) l = true <-> In k l.
Proof.
  rewrite existsb_exists. split.
  - intros (x & Hx & E). apply String.eqb_eq in E. now subst.
  - intros H. exists k. split; [exact H | apply String.eqb_refl].
Qed.

(** X25.  [cmd_coverage] returns 0 exactly when every core token is a key of
    the first variant's syntax, and 1 otherwise; the other variants are not
    looked at. *)
Theorem cmd_coverage_status (theme t style : json) (ts : list json) (syntax : dict) :
  Json.subscript theme "themes" = Some (JList (t :: ts)) ->
  Json.subscript t "style" = Some style ->
  Json.subscript style "syntax" = Some (JDict syntax) ->
  exists lines status,
    cmd_coverage theme = Some (lines, status)
    /\ (status = 0%Z <-> forall tok, In tok CORE_TOKENS -> In tok (Dict.keys syntax))
    /\ (status = 0%Z \/ status = 1%Z).
Proof.
  intros Et Es Esy. unfold cmd_coverage. rewrite Et. cbn [bind]. rewrite Es.
  cbn [bind]. rewrite Esy. cbn [bind Json.items].
  set (missing := set_diff (nodup string_dec CORE_TOKENS)
                    (nodup string_dec (Dict.keys syntax))).
  eexists _, _. split; [reflexivity|].
  assert (M : missing = [] <-> forall tok, In tok CORE_TOKENS -> In tok (Dict.keys syntax)).
  { unfold missing, set_diff. rewrite filter_nil. split.
    - intros H tok Hin. specialize (H tok). rewrite nodup_In in H.
      specialize (H Hin). apply negb_false_iff in H.
      apply existsb_eqb_In in H. now rewrite nodup_In in H.
    - intros H tok Hin. rewrite nodup_In in Hin. apply negb_false_iff.
      apply existsb_eqb_In. rewrite nodup_In. now apply H. }
  destruct missing as [|m ms].
  - split; [|now left]. split; [intros _; now apply M | reflexivity].
  - split; [|now right]. split; [discriminate|].
    intros H. apply M in H. discriminate H.
Qed.

Lemma cmd_coverage_status_witness :
  exists lines status,
    cmd_coverage
      (JDict [("themes",
               JList [JDict [("style",
                              JDict [("syntax", JDict [("comment", JNull)])])]])])
    = Some (lines, status)
    /\ (status = 0%Z
        <-> forall tok, In tok CORE_TOKENS -> In tok (Dict.keys [("comment", JNull)]))
    /\ (status = 0%Z \/ status = 1%Z).
Proof.
  apply (cmd_coverage_status _
           (JDict [("style", JDict [("syntax", JDict [("comment", JNull)])])])
           (JDict [("syntax", JDict [("comment", JNull)])]) []).
  - reflexivity.
  - reflexivity.
  - reflexivity.
Defined.

(** ** The structure check *)

Lemma missing_keys_dict (msg : string -> string) (required : list string) (d : dict) :
  exists errors,
    missing_keys msg required (JDict d) = Some errors
    /\ (errors = [] <-> forallb (fun k => has_key k d) required = true).
Proof.
  unfold missing_keys.
  induction required as [|k required (errors & E & Hiff)].
  - exists []. split; [reflexivity | now split].
  - bind_inv E as found Ef. inversion E; subst errors; clear E.
    cbn [mapM]. rewrite Ef. cbn [py_in bind List.concat forallb].
    fold (has_key k d). eexists. split; [reflexivity|].
    destruct (has_key k d); cbn [app andb]; [exact Hiff|].
    split; discriminate.
Qed.

Lemma per_theme_dicts (msg : nat -> string -> string) (required : list string)
    (ts : list dict) :
  forall i,
  exists per,
    mapM (fun it => missing_keys (msg (fst it)) required (snd it))
      (combine (seq i (List.length (map JDict ts))) (map JDict ts)) = Some per
    /\ (List.concat per = []
        <-> forall t, In t ts -> forallb (fun k => has_key k t) required = true).
Proof.
  induction ts as [|t ts IH]; intros i.
  - exists []. split; [reflexivity|]. split; [intros _ t []| reflexivity].
  - cbn [map List.length seq combine mapM fst snd].
    destruct (missing_keys_dict (msg i) required t) as (e & -> & He).
    destruct (IH (S i)) as (per & -> & Hper). cbn [bind].
    eexists. split; [reflexivity|]. cbn [List.concat]. split.
    + intros E. apply app_eq_nil in E as [E1 E2]. intros t' [<-|Hin].
      * now apply He.
      * now apply Hper.
    + intros Hall. rewrite (proj2 He), (proj2 Hper); [reflexivity | |].
      * intros t' Hin. apply Hall. now right.
      * apply Hall. now left.
Qed.

(** X26.  On an artifact whose variants are dictionaries the structure check
    passes exactly when the artifact has the keys [$schema] and [themes] and
    every variant has the keys [name], [appearance] and [style]. *)
Theorem validate_structure_passes_iff (d : dict) (ts : list dict) :
  Json.get_or (JDict d) "themes" (JList []) = Some (JList (map JDict ts)) ->
  exists results,
    validate_structure (JDict d) = Some results
    /\ (forallb ok results = true
        <-> has_key "$schema" d = true /\ has_key "themes" d = true
            /\ forall t, In t ts ->
                 has_key "name" t = true /\ has_key "appearance" t = true
                 /\ has_key "style" t = true).
Proof.
  intros Ht. unfold validate_structure.
  destruct (missing_keys_dict (fun k => "Missing " ++ k) ["$schema"; "themes"] d)
    as (root & -> & Hroot).
  cbn [bind]. rewrite Ht. cbn [bind Json.iter]. unfold enumerate.
  destruct (per_theme_dicts
              (fun i k => "Theme " ++ Py.str_nat i ++ ": missing " ++ k)
              ["name"; "appearance"; "style"] ts 0) as (per & -> & Hper).
  cbn [bind]. eexists. split; [reflexivity|].
  cbn [forallb] in Hroot, Hper. rewrite andb_true_r in Hroot.
  assert (R : forallb ok (or_else (map failure (root ++ List.concat per))
                            (success "Valid structure")) = true
              <-> (root ++ List.concat per)%list = []).
  { destruct (root ++ List.concat per)%list; [now split | split; discriminate]. }
  rewrite R. split.
  - intros E. apply app_eq_nil in E as [E1 E2].
    apply Hroot in E1. apply andb_prop in E1 as [A B]. split; [exact A|].
    split; [exact B|]. intros t Hin.
    pose proof (proj1 Hper E2 t Hin) as P. rewrite andb_true_r in P.
    apply andb_prop in P as [P1 P2]. apply andb_prop in P2 as [P2 P3]. auto.
  - intros (A & B & Hall). rewrite (proj2 Hroot), (proj2 Hper); [reflexivity | |].
    + intros t Hin. destruct (Hall t Hin) as (P1 & P2 & P3).
      now rewrite P1, P2, P3.
    + now rewrite A, B.
Qed.

Lemma validate_structure_passes_iff_witness :
  exists results,
    validate_structure
      (JDict [ ("$schema", JStr "https://zed.dev/schema/themes/v0.2.0.json");
               ("themes", JList (map JDict [ [("name", JStr "Synthwave84")] ])) ])
    = Some results
    /\ (forallb ok results = true
        <-> has_key "$schema"
              [ ("$schema", JStr "https://zed.dev/schema/themes/v0.2.0.json");
                ("themes", JList (map JDict [ [("name", JStr "Synthwave84")] ])) ] = true
            /\ has_key "themes"
                 [ ("$schema", JStr "https://zed.dev/schema/themes/v0.2.0.json");
                   ("themes", JList (map JDict [ [("name", JStr "Synthwave84")] ])) ]
               = true
            /\ forall t, In t [ [("name", JStr "Synthwave84")] ] ->
                 has_key "name" t = true /\ has_key "appearance" t = true
                 /\ has_key "style" t = true).
Proof.
  apply (validate_structure_passes_iff
           [ ("$schema", JStr "https://zed.dev/schema/themes/v0.2.0.json");
             ("themes", JList (map JDict [ [("name", JStr "Synthwave84")] ])) ]
           [ [("name", JStr "Synthwave84")] ]).
  reflexivity.
Defined.
